(** * moon7-inspect: runtime inspectors and their combinator algebra

    A shallow embedding of [src/inspect.ts].  JavaScript values are a
    first-order datatype in which every object carries the reference
    that [===] compares; inspectors are functions from values into a
    small state-and-exception monad, because a user-supplied inspector
    or supplier is an arbitrary closure: it may throw and it may touch
    state of its own.

    Modelling boundary.  An object carries its enumerable string-keyed
    data properties (what [Object.entries] walks).  What [x[key]] and
    [for..in] find beyond those comes from the prototype chain, which is
    a parameter of the development: the chain of a class instance is the
    program's own and the members of the built-in prototypes vary with
    the host.  The members a shape literal inherits from
    [Object.prototype] are spelled out, since [isPartialOf] looks keys
    up with [in].  Own accessors and symbol keys are not represented,
    the built-in prototypes hold no integer keys, and collections are
    finite and not mutated while they are inspected. *)

From Stdlib Require Import ZArith List String Ascii Bool Lia.
From Stdlib Require Import Decimal DecimalString DecimalNat.
From Stdlib Require Import Floats.SpecFloat.
Import ListNotations.

Local Open Scope Z_scope.

#[local] Set Warnings "-register-all".

(** ** Numbers

    A JavaScript number is an IEEE-754 binary64 value; [spec_float] is
    the Standard Library's datatype for those.  The inspectors only use
    operations that are exact on doubles (comparison, the integrality
    test, truncation modulo 2^32), so each is defined on the exact value
    [m * 2^e] of a finite float. *)
Module Number.

Definition t := spec_float.

Definition NaN : t := S754_nan.
Definition Infinity : t := S754_infinity false.
Definition NegInfinity : t := S754_infinity true.
Definition NegZero : t := S754_zero true.

(** The integer literal [z] (exact below 2^53). *)
Definition of_Z (z : Z) : t :=
  match z with
  | Z0 => S754_zero false
  | Zpos p => S754_finite false p 0
  | Zneg p => S754_finite true p 0
  end.

Inductive view := IsNaN | IsInf (negative : bool) | IsFin (m e : Z).

(** [IsFin m e] stands for the real number [m * 2^e]. *)
Definition classify (x : t) : view :=
  match x with
  | S754_nan => IsNaN
  | S754_infinity s => IsInf s
  | S754_zero _ => IsFin 0 0
  | S754_finite s m e => IsFin (if s then Zneg m else Zpos m) e
  end.

Definition is_nan (x : t) : bool :=
  match x with S754_nan => true | _ => false end.

Definition compare_fin (m1 e1 m2 e2 : Z) : comparison :=
  let e := Z.min e1 e2 in
  Z.compare (m1 * 2 ^ (e1 - e)) (m2 * 2 ^ (e2 - e)).

(** Numeric comparison; [None] when one side is NaN. *)
Definition compare (x y : t) : option comparison :=
  match classify x, classify y with
  | IsNaN, _ | _, IsNaN => None
  | IsInf s1, IsInf s2 =>
      Some (match s1, s2 with
            | true, false => Lt
            | false, true => Gt
            | _, _ => Eq
            end)
  | IsInf s, IsFin _ _ => Some (if s then Lt else Gt)
  | IsFin _ _, IsInf s => Some (if s then Gt else Lt)
  | IsFin m1 e1, IsFin m2 e2 => Some (compare_fin m1 e1 m2 e2)
  end.

(** [x === y] on two numbers. *)
Definition equal (x y : t) : bool :=
  match compare x y with Some Eq => true | _ => false end.

(** [x <= y] and [x >= y]. *)
Definition le (x y : t) : bool :=
  match compare x y with Some Lt | Some Eq => true | _ => false end.
Definition ge (x y : t) : bool := le y x.

(** [Number.isInteger] on a number. *)
Definition isInteger (x : t) : bool :=
  match classify x with
  | IsFin m e => (0 <=? e) || (m mod 2 ^ (- e) =? 0)
  | _ => false
  end.

(** Rounding towards zero of [m * 2^e]. *)
Definition truncate (m e : Z) : Z :=
  if 0 <=? e then m * 2 ^ e else Z.quot m (2 ^ (- e)).

(** The abstract operation ToUint32; [x >>> 0] is its result. *)
Definition ToUint32 (x : t) : Z :=
  match classify x with
  | IsFin m e => truncate m e mod 2 ^ 32
  | _ => 0
  end.

(** [x >>> y]: both operands go through ToUint32, the count is taken
    modulo 32, the result is an unsigned 32-bit integer. *)
Definition ushr (x y : t) : t :=
  of_Z (Z.shiftr (ToUint32 x) (ToUint32 y mod 32)).

(** [x] is the integer [z]. *)
Definition represents (x : t) (z : Z) : Prop :=
  compare x (of_Z z) = Some Eq.

(** [m * 2^e] is the integer [z]. *)
Definition fin_is (m e z : Z) : Prop :=
  if 0 <=? e then m * 2 ^ e = z else m = z * 2 ^ (- e).

Definition is_finite (x : t) : bool :=
  match classify x with IsFin _ _ => true | _ => false end.

End Number.

(** ** Values *)

Definition loc := nat.
Bind Scope nat_scope with loc.

Inductive Value : Type :=
| VUndefined
| VNull
| VBoolean (b : bool)
| VNumber (n : Number.t)
| VBigInt (z : Z)
| VString (s : string)
| VSymbol (id : nat)
| VObject (ref : loc) (kind : Kind) (props : list (string * Value))
with Kind : Type :=
| KPlain                                  (* object literal *)
| KInstance (class : string)              (* instance of some other class *)
| KFunction
| KBoxedString (s : string)               (* new String(s) *)
| KBoxedNumber (n : Number.t)             (* new Number(n) *)
| KBoxedBoolean (b : bool)                (* new Boolean(b) *)
| KArray (elems : list Value)
| KSet (elems : list Value)
| KMap (entries : list (Value * Value))
| KIterator (pending : list Value).       (* iterator or generator object *)

Inductive TypeTag :=
| TUndefined | TObject | TBoolean | TNumber | TBigInt | TString | TSymbol
| TFunction.

Definition typeof (x : Value) : TypeTag :=
  match x with
  | VUndefined => TUndefined
  | VNull => TObject
  | VBoolean _ => TBoolean
  | VNumber _ => TNumber
  | VBigInt _ => TBigInt
  | VString _ => TString
  | VSymbol _ => TSymbol
  | VObject _ KFunction _ => TFunction
  | VObject _ _ _ => TObject
  end.

Definition TypeTag_eqb (a b : TypeTag) : bool :=
  match a, b with
  | TUndefined, TUndefined | TObject, TObject | TBoolean, TBoolean
  | TNumber, TNumber | TBigInt, TBigInt | TString, TString
  | TSymbol, TSymbol | TFunction, TFunction => true
  | _, _ => false
  end.

(** The built-in constructors that the inspectors test with [instanceof]. *)
Inductive Ctor := CString | CArray | CSet | CMap.

Definition instanceof (x : Value) (c : Ctor) : bool :=
  match x, c with
  | VObject _ (KBoxedString _) _, CString => true
  | VObject _ (KArray _) _, CArray => true
  | VObject _ (KSet _) _, CSet => true
  | VObject _ (KMap _) _, CMap => true
  | _, _ => false
  end.

(** [x === y]. *)
Definition strict_equals (x y : Value) : bool :=
  match x, y with
  | VUndefined, VUndefined => true
  | VNull, VNull => true
  | VBoolean a, VBoolean b => Bool.eqb a b
  | VNumber a, VNumber b => Number.equal a b
  | VBigInt a, VBigInt b => Z.eqb a b
  | VString a, VString b => String.eqb a b
  | VSymbol a, VSymbol b => Nat.eqb a b
  | VObject r1 _ _, VObject r2 _ _ => Nat.eqb r1 r2
  | _, _ => false
  end.

(** [x == null]. *)
Definition loose_equals_null (x : Value) : bool :=
  match x with
  | VUndefined | VNull => true
  | _ => false
  end.

(** *** Properties *)

(** The canonical property key of the array index [i]. *)
Definition index_key (i : nat) : string :=
  NilEmpty.string_of_uint (Nat.to_uint i).

Fixpoint chars (s : string) : list Value :=
  match s with
  | EmptyString => []
  | String c rest => VString (String c EmptyString) :: chars rest
  end.

Definition indexed (vs : list Value) : list (string * Value) :=
  combine (map index_key (seq 0 (List.length vs))) vs.

(** Enumerable string-keyed properties in enumeration order: integer
    keys first, then the named ones. *)
Definition own_props (x : Value) : list (string * Value) :=
  match x with
  | VObject _ (KArray elems) props => indexed elems ++ props
  | VObject _ (KBoxedString s) props => indexed (chars s) ++ props
  | VObject _ _ props => props
  | _ => []
  end.

Fixpoint assoc {A} (key : string) (l : list (string * A)) : option A :=
  match l with
  | [] => None
  | (k, v) :: rest => if String.eqb key k then Some v else assoc key rest
  end.

(** The value of the enumerable own property [key] of [x], [undefined]
    when [x] has no such property.  This is [x[key]] where the key is an
    own key of [x] (the entries that [Object.entries] lists) and where
    [x] is an array and the key an index; for any other key, [Get] below
    goes on to the prototype chain. *)
Definition get_prop (x : Value) (key : string) : Value :=
  match assoc key (own_props x) with
  | Some v => v
  | None => VUndefined
  end.

(** The enumerable own keys of [x] in enumeration order: the keys of
    [Object.entries(x)], and the first ones a [for..in] loop visits. *)
Definition for_in_keys (x : Value) : list string :=
  nodup string_dec (map fst (own_props x)).

(** The own properties that are not enumerable: the [length] of an array
    and of a boxed string. *)
Definition hidden_own (x : Value) (key : string) : option Value :=
  match x with
  | VObject _ (KArray elems) _ =>
      if String.eqb key "length"
      then Some (VNumber (Number.of_Z (Z.of_nat (List.length elems))))
      else None
  | VObject _ (KBoxedString s) _ =>
      if String.eqb key "length"
      then Some (VNumber (Number.of_Z (Z.of_nat (String.length s))))
      else None
  | _ => None
  end.

Definition hidden_keys (x : Value) : list string :=
  match x with
  | VObject _ (KArray _) _ | VObject _ (KBoxedString _) _ => ["length"%string]
  | _ => []
  end.

(** The members of a prototype chain, nearest object first: the key, the
    value a read yields, and whether the member is enumerable. *)
Definition Members := list (string * (Value * bool)).

(** The keys of [members] that a [for..in] loop visits once it has been
    through [seen]: a member is skipped when a nearer property has its
    name, enumerable or not. *)
Fixpoint enumerable_members (seen : list string) (members : Members)
  : list string :=
  match members with
  | [] => []
  | (key, (_, enumerable)) :: rest =>
      if existsb (String.eqb key) seen then enumerable_members seen rest
      else (if enumerable then [key] else [])
           ++ enumerable_members (key :: seen) rest
  end.

(** A value is an Object in the sense of the language: functions too. *)
Definition is_Object (x : Value) : bool :=
  match x with
  | VObject _ _ _ => true
  | _ => false
  end.


(** ** Primitive inspectors that cannot throw *)

Definition isUndefined (x : Value) : bool := strict_equals x VUndefined.

Definition isNull (x : Value) : bool := strict_equals x VNull.

Definition isNullish (x : Value) : bool := loose_equals_null x.

Definition isBoolean (x : Value) : bool :=
  strict_equals x (VBoolean true) || strict_equals x (VBoolean false).

Definition isNumber (x : Value) : bool := TypeTag_eqb (typeof x) TNumber.

(** [Number.isInteger(x)]: false unless [x] is of type number. *)
Definition Number_isInteger (x : Value) : bool :=
  match x with
  | VNumber n => Number.isInteger n
  | _ => false
  end.

Definition isInt (x : Value) : bool := Number_isInteger x.

(** [Number.isInteger(x) && x >= 0 && x <= 255]; the comparisons are only
    reached with a number on the left. *)
Definition isUInt8 (x : Value) : bool :=
  Number_isInteger x &&
  match x with
  | VNumber n => Number.ge n (Number.of_Z 0) && Number.le n (Number.of_Z 255)
  | _ => false
  end.

Definition isBigInt (x : Value) : bool := TypeTag_eqb (typeof x) TBigInt.

Definition isString (x : Value) : bool :=
  TypeTag_eqb (typeof x) TString || instanceof x CString.

Definition isArray (x : Value) : bool := instanceof x CArray.

Definition isSet (x : Value) : bool := instanceof x CSet.

Definition isMap (x : Value) : bool := instanceof x CMap.

Definition isObject (x : Value) : bool :=
  negb (strict_equals x VNull) && TypeTag_eqb (typeof x) TObject.

Definition isPrimitive (x : Value) : bool :=
  isNullish x || isNumber x || isString x || isBoolean x.

(** [x != null && typeof x[Symbol.iterator] === "function"]: strings and
    the built-in collections and iterators carry the method. *)
Definition has_iterator_method (x : Value) : bool :=
  match x with
  | VString _ => true
  | VObject _ (KBoxedString _ | KArray _ | KSet _ | KMap _ | KIterator _) _ =>
      true
  | _ => false
  end.

Definition isIterable (x : Value) : bool :=
  negb (loose_equals_null x) && has_iterator_method x.

(** ** Effects *)

(** A call either returns or throws a value. *)
Inductive Outcome (A : Type) :=
| Return (a : A)
| Throw (exn : Value).
Arguments Return {A} a.
Arguments Throw {A} exn.

Section Inspect.

(** Whatever mutable state the closures handed to the library own. *)
Variable World : Type.

(** The number a string or an object converts to (StringToNumber, after
    [valueOf] and [toString] for an object); the grammar of numeric
    strings is not needed here. *)
Variable text_to_number : Value -> Number.t.

(** What [x[key]] finds on an object of a given kind beyond its
    enumerable own properties and the lengths above: the members of its
    prototype chain (and, for a class instance, own properties that are
    not enumerable), nearest first.  [Object.prototype] and
    [Array.prototype] belong to the host and the prototype of a class
    instance to the program, so the chain is left open. *)
Variable prototype_chain : Kind -> Members.

Record Store := mkStore { next_ref : loc; world : World }.

Definition M (A : Type) := Store -> Outcome A * Store.

Definition ret {A} (a : A) : M A := fun st => (Return a, st).

Definition bind {A B} (m : M A) (k : A -> M B) : M B :=
  fun st =>
    match m st with
    | (Return a, st') => k a st'
    | (Throw e, st') => (Throw e, st')
    end.

Notation "x <- m ;; k" := (bind m (fun x => k))
  (at level 61, m at next level, right associativity).

Definition throw {A} (e : Value) : M A := fun st => (Throw e, st).

(** Allocation of a new object reference. *)
Definition fresh : M loc :=
  fun st => (Return (next_ref st), mkStore (S (next_ref st)) (world st)).

Definition throwTypeError {A} : M A :=
  r <- fresh ;; throw (VObject r (KInstance "TypeError") []).

(** The abstract operation ToPrimitive on an object: it runs the
    object's own conversion methods ([toString], [valueOf]), which are
    arbitrary code. *)
Variable to_primitive : Value -> M Value.

(** *** Inspectors

    The two exported sentinels are told apart from every other function
    by reference; any other function object is a closure. *)
Inductive Inspector :=
| isAny
| isNever
| Fn (body : Value -> M bool).

Definition call (isT : Inspector) (x : Value) : M bool :=
  match isT with
  | isAny => ret true
  | isNever => ret false
  | Fn body => body x
  end.

(** [isT === isNever] and [isT === isAny]. *)
Definition is_isNever (isT : Inspector) : bool :=
  match isT with isNever => true | _ => false end.
Definition is_isAny (isT : Inspector) : bool :=
  match isT with isAny => true | _ => false end.

(** A function of the library that neither throws nor has effects. *)
Definition native (f : Value -> bool) : Inspector :=
  Fn (fun x => ret (f x)).

(** The abstract operation ToNumber, which the shift applies to its
    operand: a bigint or a symbol makes it throw a TypeError; a string,
    or an object through its primitive value, is read by
    [text_to_number]. *)
Definition ToNumber (x : Value) : M Number.t :=
  match x with
  | VUndefined => ret Number.NaN
  | VNull => ret (Number.of_Z 0)
  | VBoolean b => ret (Number.of_Z (if b then 1 else 0))
  | VNumber n => ret n
  | VBigInt _ | VSymbol _ => throwTypeError
  | VString _ | VObject _ _ _ => ret (text_to_number x)
  end.

(** [x >>> 0 === x]. *)
Definition isUInt32 : Inspector :=
  Fn (fun x =>
    n <- ToNumber x ;;
    ret (strict_equals (VNumber (Number.ushr n (Number.of_Z 0))) x)).

(** *** Lazy inspector

    [is] is reserved in Rocq, hence the quote; the supplier is a
    zero-argument closure, that is a computation. *)

Definition is' (lazy : M Inspector) : Inspector :=
  Fn (fun x => isT <- lazy ;; call isT x).

(** *** Higher-order inspectors *)

(** [Array.prototype.some] and [Array.prototype.every]. *)
Fixpoint Array_some {A} (cb : A -> M bool) (l : list A) : M bool :=
  match l with
  | [] => ret false
  | a :: rest => b <- cb a ;; if b then ret true else Array_some cb rest
  end.

Fixpoint Array_every {A} (cb : A -> M bool) (l : list A) : M bool :=
  match l with
  | [] => ret true
  | a :: rest => b <- cb a ;; if b then Array_every cb rest else ret false
  end.

Definition isAnyOf (inspectors : list Inspector) : Inspector :=
  Fn (fun x => Array_some (fun isT => call isT x) inspectors).

Definition isAllOf (inspectors : list Inspector) : Inspector :=
  Fn (fun x => Array_every (fun isT => call isT x) inspectors).

Definition isOptional (isT : Inspector) : Inspector :=
  isAnyOf [native isUndefined; isT].

Definition isNullable (isT : Inspector) : Inspector :=
  isAnyOf [native isNull; isT].

Definition isNot (isT : Inspector) : Inspector :=
  Fn (fun x => b <- call isT x ;; ret (negb b)).

Definition isExact (value : Value) : Inspector :=
  Fn (fun x => ret (strict_equals x value)).

(** The [k, v] pairs a Map hands out are new arrays. *)
Fixpoint entry_arrays (entries : list (Value * Value)) : M (list Value) :=
  match entries with
  | [] => ret []
  | (k, v) :: rest =>
      r <- fresh ;;
      es <- entry_arrays rest ;;
      ret (VObject r (KArray [k; v]) [] :: es)
  end.

(** The elements [for (const v of x)] goes through; a value without
    the iteration protocol makes the loop throw. *)
Definition iterate (x : Value) : M (list Value) :=
  match x with
  | VString s => ret (chars s)
  | VObject _ (KBoxedString s) _ => ret (chars s)
  | VObject _ (KArray elems) _ => ret elems
  | VObject _ (KSet elems) _ => ret elems
  | VObject _ (KIterator pending) _ => ret pending
  | VObject _ (KMap entries) _ => entry_arrays entries
  | _ => throwTypeError
  end.

(** [for (const v of vs) if (!isT(v)) return false; return true]. *)
Fixpoint forOf_all (isT : Inspector) (vs : list Value) : M bool :=
  match vs with
  | [] => ret true
  | v :: rest =>
      b <- call isT v ;;
      if negb b then ret false else forOf_all isT rest
  end.

Definition isIterableOf (isT : Inspector) : Inspector :=
  Fn (fun x =>
    if negb (isIterable x) then ret false
    else if is_isNever isT then ret false
    else if is_isAny isT then ret true
    else vs <- iterate x ;; forOf_all isT vs).

Definition isArrayOf (isT : Inspector) : Inspector :=
  Fn (fun x => if isArray x then call (isIterableOf isT) x else ret false).

Definition isSetOf (isT : Inspector) : Inspector :=
  Fn (fun x => if isSet x then call (isIterableOf isT) x else ret false).

(** [x.keys()] and [x.values()] on a Map: new iterator objects. *)
Definition Map_keys (x : Value) : M Value :=
  match x with
  | VObject _ (KMap entries) _ =>
      r <- fresh ;; ret (VObject r (KIterator (map fst entries)) [])
  | _ => throwTypeError
  end.

Definition Map_values (x : Value) : M Value :=
  match x with
  | VObject _ (KMap entries) _ =>
      r <- fresh ;; ret (VObject r (KIterator (map snd entries)) [])
  | _ => throwTypeError
  end.

Definition isMapOf (isK isV : Inspector) : Inspector :=
  Fn (fun x =>
    if isMap x then
      ks <- Map_keys x ;;
      keys_ok <- call (isIterableOf isK) ks ;;
      if keys_ok then
        vs <- Map_values x ;;
        call (isIterableOf isV) vs
      else ret false
    else ret false).

(** The loop of [isTupleOf] from index [i] on, [inspectors] being the
    inspectors that remain.  [x] is an array when the loop runs: the
    element at an index is an own property, and an index past the end
    is found nowhere. *)
Fixpoint tuple_loop (inspectors : list Inspector) (i : nat) (x : Value)
  : M bool :=
  match inspectors with
  | [] => ret true
  | isT :: rest =>
      b <- call isT (get_prop x (index_key i)) ;;
      if negb b then ret false else tuple_loop rest (S i) x
  end.

Definition isTupleOf (inspectors : list Inspector) : Inspector :=
  Fn (fun x =>
    if negb (isArray x) then ret false else tuple_loop inspectors 0 x).

(** *** Reading properties

    [x[key]] on an object: an own property first, then the prototype
    chain; a property found nowhere reads as [undefined].  The loops
    below read properties after [isObject] has passed, so these
    functions only ever meet objects. *)
Definition members_of (x : Value) : Members :=
  match x with
  | VObject _ kind _ => prototype_chain kind
  | _ => []
  end.

Definition Get (x : Value) (key : string) : Value :=
  match hidden_own x key with
  | Some v => v
  | None =>
      match assoc key (own_props x) with
      | Some v => v
      | None =>
          match assoc key (members_of x) with
          | Some (v, _) => v
          | None => VUndefined
          end
      end
  end.


(** The keys visited by [for (const key in x)]: the enumerable own keys,
    then the enumerable inherited ones that no nearer property hides. *)
Definition for_in (x : Value) : list string :=
  for_in_keys x ++
  enumerable_members (hidden_keys x ++ for_in_keys x) (members_of x).

(** *** Shapes

    A shape is an object literal whose values are inspectors:
    [Object.entries] lists its own entries, and it inherits the members
    of [Object.prototype]. *)
Definition Shape := list (string * Inspector).

(** ToPropertyKey: a primitive converts without effect. *)
Definition ToPropertyKey (v : Value) : M unit :=
  if is_Object v then _ <- to_primitive v ;; ret tt else ret tt.

(** The members of [Object.prototype], each as what it does when it is
    called the way an inspector is, [isV(v)]: a plain call, so [this] is
    undefined, with the result read as a boolean.
    - [Object(v)] returns an object, a new one unless [v] is one;
    - [toString] returns a non-empty string;
    - [isPrototypeOf] returns false for a primitive, and converts [this]
      to an object otherwise, which throws;
    - [hasOwnProperty] and [propertyIsEnumerable] convert their argument
      to a key and then [this] to an object;
    - [valueOf], [toLocaleString] and the four legacy accessor methods
      start by converting [this];
    - [__proto__] is an accessor whose value, the prototype, is not
      callable. *)
Definition Object_prototype : list (string * Inspector) :=
  [ ("constructor"%string,
      Fn (fun v => if is_Object v then ret true
                   else _ <- fresh ;; ret true));
    ("__defineGetter__"%string, Fn (fun _ => throwTypeError));
    ("__defineSetter__"%string, Fn (fun _ => throwTypeError));
    ("hasOwnProperty"%string,
      Fn (fun v => _ <- ToPropertyKey v ;; throwTypeError));
    ("__lookupGetter__"%string, Fn (fun _ => throwTypeError));
    ("__lookupSetter__"%string, Fn (fun _ => throwTypeError));
    ("isPrototypeOf"%string,
      Fn (fun v => if is_Object v then throwTypeError else ret false));
    ("propertyIsEnumerable"%string,
      Fn (fun v => _ <- ToPropertyKey v ;; throwTypeError));
    ("toString"%string, Fn (fun _ => ret true));
    ("valueOf"%string, Fn (fun _ => throwTypeError));
    ("__proto__"%string, Fn (fun _ => throwTypeError));
    ("toLocaleString"%string, Fn (fun _ => throwTypeError)) ].

(** [type[key]]: an own entry first, then what the shape inherits. *)
Definition shape_get (key : string) (type : Shape) : option Inspector :=
  assoc key (type ++ Object_prototype).

(** [key in type]. *)
Definition has_key (key : string) (type : Shape) : bool :=
  match shape_get key type with Some _ => true | None => false end.

(** The loop of [isObjectOf] over [Object.entries(type)]. *)
Fixpoint object_loop (entries : Shape) (x : Value) : M bool :=
  match entries with
  | [] => ret true
  | (key, isV) :: rest =>
      b <- call isV (Get x key) ;;
      if negb b then ret false else object_loop rest x
  end.

Definition isObjectOf (type : Shape) : Inspector :=
  Fn (fun x => if negb (isObject x) then ret false else object_loop type x).

(** The loop of [isPartialOf] over the keys of [x] still to visit. *)
Fixpoint partial_loop (type : Shape) (keys : list string) (x : Value)
  : M bool :=
  match keys with
  | [] => ret true
  | key :: rest =>
      if has_key key type then
        match shape_get key type with
        | Some isV =>
            b <- call isV (Get x key) ;;
            if negb b then ret false else partial_loop type rest x
        | None => throwTypeError
        end
      else partial_loop type rest x
  end.

Definition isPartialOf (type : Shape) : Inspector :=
  Fn (fun x =>
    if negb (isObject x) then ret false
    else partial_loop type (for_in x) x).

(** *** Pure inspectors

    [m] returns [a] from every store and leaves the closures' state as
    it found it (it may allocate). *)
Definition returns {A} (m : M A) (a : A) : Prop :=
  forall st, fst (m st) = Return a /\ world (snd (m st)) = world st.

(** The inspector [isT] is the total, effect-free predicate [p]. *)
Definition decides (isT : Inspector) (p : Value -> bool) : Prop :=
  forall x, returns (call isT x) (p x).

(** Every inspector of the shape is such a predicate, [p key] for the
    entry at [key]. *)
Definition shape_decides (type : Shape) (p : string -> Value -> bool)
  : Prop :=
  forall key isV, In (key, isV) type -> decides isV (p key).

(** *** Inspectors with a verdict

    [isT] accepts [v]: the call returns true, from whatever store. *)
Definition accepts (isT : Inspector) (v : Value) : Prop :=
  forall st, fst (call isT v st) = Return true.

(** The verdict of [isT] does not depend on the store: what it accepts
    once it accepts always.  It may still throw, or return false, on the
    values it does not accept. *)
Definition stable (isT : Inspector) : Prop :=
  forall v st, fst (call isT v st) = Return true -> accepts isT v.

Definition shape_stable (type : Shape) : Prop :=
  forall key isV, In (key, isV) type -> stable isV.

End Inspect.

Arguments ret {World A} a.
Arguments bind {World A B} m k.
Arguments throw {World A} e.
Arguments fresh {World}.
Arguments throwTypeError {World A}.
Arguments isAny {World}.
Arguments isNever {World}.
Arguments Fn {World} body.
Arguments call {World} isT x.
Arguments is_isNever {World} isT.
Arguments is_isAny {World} isT.
Arguments native {World} f.
Arguments ToNumber {World} text_to_number x.
Arguments isUInt32 {World} text_to_number.
Arguments is' {World} lazy.
Arguments Array_some {World A} cb l.
Arguments Array_every {World A} cb l.
Arguments isAnyOf {World} inspectors.
Arguments isAllOf {World} inspectors.
Arguments isOptional {World} isT.
Arguments isNullable {World} isT.
Arguments isNot {World} isT.
Arguments isExact {World} value.
Arguments entry_arrays {World} entries.
Arguments iterate {World} x.
Arguments forOf_all {World} isT vs.
Arguments isIterableOf {World} isT.
Arguments isArrayOf {World} isT.
Arguments isSetOf {World} isT.
Arguments Map_keys {World} x.
Arguments Map_values {World} x.
Arguments isMapOf {World} isK isV.
Arguments tuple_loop {World} inspectors i x.
Arguments isTupleOf {World} inspectors.
Arguments ToPropertyKey {World} to_primitive v.
Arguments Object_prototype {World} to_primitive.
Arguments shape_get {World} to_primitive key type.
Arguments has_key {World} to_primitive key type.
Arguments object_loop {World} prototype_chain entries x.
Arguments isObjectOf {World} prototype_chain type.
Arguments partial_loop {World} prototype_chain to_primitive type keys x.
Arguments isPartialOf {World} prototype_chain to_primitive type.
Arguments returns {World A} m a.
Arguments decides {World} isT p.
Arguments shape_decides {World} type p.
Arguments accepts {World} isT v.
Arguments stable {World} isT.
Arguments shape_stable {World} type.
Arguments mkStore {World} next_ref world.
Arguments next_ref {World} s.
Arguments world {World} s.

Notation "x <- m ;; k" := (bind m (fun x => k))
  (at level 61, m at next level, right associativity).

(** ** Further inspectors *)

Section Extended.

Context {World : Type}.

(** [isStringOf], [isNumberOf] and [isBooleanOf]: [isExact] with a
    narrower static type. *)
Definition isStringOf (value : Value) : Inspector World :=
  Fn (fun x => ret (strict_equals x value)).

Definition isNumberOf (value : Value) : Inspector World :=
  Fn (fun x => ret (strict_equals x value)).

Definition isBooleanOf (value : Value) : Inspector World :=
  Fn (fun x => ret (strict_equals x value)).

(** [Object.getPrototypeOf(x)], as far as [isStruct] looks at it; no
    value of the model is an object without a prototype. *)
Inductive Prototype := ObjectPrototype | NullPrototype | OtherPrototype.

Definition getPrototypeOf (x : Value) : Prototype :=
  match x with
  | VObject _ KPlain _ => ObjectPrototype
  | _ => OtherPrototype
  end.

Definition Prototype_eqb (a b : Prototype) : bool :=
  match a, b with
  | ObjectPrototype, ObjectPrototype => true
  | NullPrototype, NullPrototype => true
  | OtherPrototype, OtherPrototype => true
  | _, _ => false
  end.

Definition isStruct (x : Value) : bool :=
  isObject x &&
  existsb (Prototype_eqb (getPrototypeOf x)) [ObjectPrototype; NullPrototype].

Definition isRecord (x : Value) : bool := isStruct x.

Definition isInstance (x : Value) : bool := isObject x && negb (isStruct x).

(** [x > y] on two numbers. *)
Definition Number_gt (x y : Number.t) : bool :=
  match Number.compare x y with Some Gt => true | _ => false end.

(** [x.length] where the callers read it: on an array, the number of
    its elements. *)
Definition length_of (x : Value) : Value :=
  match x with
  | VObject _ (KArray elems) _ =>
      VNumber (Number.of_Z (Z.of_nat (List.length elems)))
  | _ => get_prop x "length"
  end.

(** [v > 0], reached with a number on the left. *)
Definition greater_than_zero (v : Value) : bool :=
  match v with
  | VNumber n => Number_gt n (Number.of_Z 0)
  | _ => false
  end.

Definition isNumberBetween (min max : Number.t) : Inspector World :=
  Fn (fun x =>
    ret (isNumber x &&
         match x with
         | VNumber n => Number.ge n min && Number.le n max
         | _ => false
         end)).

Definition isNonEmptyArray (x : Value) : bool :=
  isArray x && greater_than_zero (length_of x).

Definition isNonEmptyArrayOf (isT : Inspector World) : Inspector World :=
  Fn (fun x =>
    b <- call (isArrayOf isT) x ;;
    if b then ret (greater_than_zero (length_of x)) else ret false).

(** [isT(x) && predicates.every(cond => cond(x))]; a predicate is a
    closure like an inspector. *)
Definition isRefined (isT : Inspector World)
  (predicates : list (Value -> M World bool)) : Inspector World :=
  Fn (fun x =>
    b <- call isT x ;;
    if b then Array_every (fun cond => cond x) predicates else ret false).

(** [Object.entries(x)]: a new array of new [key, value] arrays, the
    keys being strings. *)
Definition Object_entries (x : Value) : M World Value :=
  es <- entry_arrays
          (map (fun key => (VString key, get_prop x key)) (for_in_keys x)) ;;
  r <- fresh ;;
  ret (VObject r (KArray es) []).

Definition isRecordOf (isK isV : Inspector World) : Inspector World :=
  Fn (fun x =>
    if isRecord x then
      es <- Object_entries x ;;
      call (isIterableOf (isTupleOf [isK; isV])) es
    else ret false).

(** What [isTupleOf(isK, isV)] computes when [isK] and [isV] are the
    predicates [pK] and [pV]. *)
Definition pair_pred (pK pV : Value -> bool) (x : Value) : bool :=
  isArray x &&
  forallb (fun kp => snd kp (get_prop x (index_key (fst kp))))
    (combine (seq 0 2) [pK; pV]).

(** The inspector [isT] is some total, effect-free predicate. *)
Definition predicate (isT : Inspector World) : Prop :=
  exists p, decides isT p.

End Extended.

(** ** Clients and specification-side notions *)

(** Successive applications of one inspector to the inputs [xs]. *)
Fixpoint apply_each {World} (isT : Inspector World) (xs : list Value)
  : M World (list bool) :=
  match xs with
  | [] => ret []
  | x :: rest =>
      b <- call isT x ;;
      bs <- apply_each isT rest ;;
      ret (b :: bs)
  end.

Definition is_NaN (v : Value) : bool :=
  match v with
  | VNumber n => Number.is_nan n
  | _ => false
  end.

(** Identity of two values in the words of the specification, "by
    reference/value identity": the same value for primitives (NaN being
    one value, a number being its numeric value), the same reference for
    objects. *)
Definition identical (x v : Value) : Prop :=
  match x, v with
  | VUndefined, VUndefined => True
  | VNull, VNull => True
  | VBoolean a, VBoolean b => a = b
  | VNumber a, VNumber b =>
      (Number.is_nan a = true /\ Number.is_nan b = true) \/
      Number.compare a b = Some Eq
  | VBigInt a, VBigInt b => a = b
  | VString a, VString b => a = b
  | VSymbol a, VSymbol b => a = b
  | VObject r1 _ _, VObject r2 _ _ => r1 = r2
  | _, _ => False
  end.

(** The right-hand side of the tuple prefix law,
    [AND_{k=1..n} i_k(a[k-1])], for inspectors that are the predicates
    [ps] and an array of elements [a]. *)
Definition tuple_conj (ps : list (Value -> bool)) (a : list Value) : bool :=
  forallb (fun k => nth k ps (fun _ => true) (nth k a VUndefined))
    (seq 0 (List.length ps)).

(** ** Sample inputs *)

Module Samples.

Local Open Scope string_scope.

Definition st0 : Store nat := mkStore 0%nat 0%nat.

Definition num (z : Z) : Value := VNumber (Number.of_Z z).

Definition str (s : string) : Value := VString s.

Definition array (r : loc) (elems : list Value) : Value :=
  VObject r (KArray elems) [].

Definition object (r : loc) (props : list (string * Value)) : Value :=
  VObject r KPlain props.

(** [isUInt32] in a world where no text reads as a number. *)
Definition uint32 : Inspector nat := isUInt32 (fun _ => Number.NaN).

(** A supplier that counts its calls in the world and hands out
    [isString]. *)
Definition counting_supplier : M nat (Inspector nat) :=
  fun st => (Return (native isString), mkStore (next_ref st) (S (world st))).

(** [() => { throw "Evaluation error" }]. *)
Definition throwing_supplier : M nat (Inspector nat) :=
  throw (str "Evaluation error").

(** [{ name: isString, age: isOptional(isNumber) }] and the predicates
    its entries compute. *)
Definition person_shape : Shape nat :=
  [("name", native isString); ("age", isOptional (native isNumber))].

Definition person_pred (key : string) (v : Value) : bool :=
  if String.eqb key "name" then isString v
  else isUndefined v || isNumber v.

Definition john : Value := object 1 [("name", str "John")].


Definition aged : Value := object 1 [("age", str "30")].

Definition john_email : Value :=
  object 1 [("name", str "John"); ("email", num 1)].

Definition john_address : Value :=
  object 2 [("address", VNull); ("name", str "John")].

(** The methods of [Object.prototype]: function objects, none of them
    enumerable. *)
Definition method (r : loc) : Value * bool := (VObject r KFunction [], false).

Definition Object_methods : Members :=
  [("constructor", method 100); ("__defineGetter__", method 101);
   ("__defineSetter__", method 102); ("hasOwnProperty", method 103);
   ("__lookupGetter__", method 104); ("__lookupSetter__", method 105);
   ("isPrototypeOf", method 106); ("propertyIsEnumerable", method 107);
   ("toString", method 108); ("valueOf", method 109);
   ("toLocaleString", method 110)].

(** The chains of the sample objects: a plain object inherits the
    methods of [Object.prototype], and an object made by
    [Object.create({ name: 5 })] the enumerable property [name] before
    them.  The chains of the other kinds are not spelled out. *)
Definition host (kind : Kind) : Members :=
  match kind with
  | KPlain => Object_methods
  | KInstance class =>
      if String.eqb class "Object.create({ name: 5 })"
      then ("name", (num 5, true)) :: Object_methods
      else []
  | _ => []
  end.

(** [Object.create({ name: 5 })]: no property of its own. *)
Definition derived : Value :=
  VObject 3 (KInstance "Object.create({ name: 5 })") [].

(** What a plain object without conversion methods of its own converts
    to. *)
Definition convert : Value -> M nat Value :=
  fun _ => ret (str "[object Object]").

(** [{ name: "John", isPrototypeOf: 1 }] and
    [{ name: "John", hasOwnProperty: 1 }]. *)
Definition john_isPrototypeOf : Value :=
  object 1 [("name", str "John"); ("isPrototypeOf", num 1)].

Definition john_hasOwnProperty : Value :=
  object 1 [("name", str "John"); ("hasOwnProperty", num 1)].



End Samples.

(** * Properties of the inspectors *)

(** ** Numbers *)

Module NumberFacts.
Import Number.

Lemma classify_of_Z z : classify (of_Z z) = IsFin z 0.
Proof. destruct z; reflexivity. Qed.

Lemma compare_fin_int m e z w :
  fin_is m e z -> compare_fin m e w 0 = Z.compare z w.
Proof.
  unfold fin_is, compare_fin. destruct (Z.leb_spec 0 e) as [He|He]; intros H.
  - rewrite Z.min_r by lia. rewrite !Z.sub_0_r, Z.mul_1_r. congruence.
  - rewrite Z.min_l by lia. rewrite Z.sub_diag, Z.mul_1_r, Z.sub_0_l. subst m.
    assert (0 < 2 ^ (- e)) by (apply Z.pow_pos_nonneg; lia).
    symmetry. apply Zmult_compare_compat_r; lia.
Qed.

Lemma compare_fin_sym m1 e1 m2 e2 :
  compare_fin m2 e2 m1 e1 = CompOpp (compare_fin m1 e1 m2 e2).
Proof.
  unfold compare_fin. rewrite (Z.min_comm e2 e1). apply Z.compare_antisym.
Qed.

Lemma compare_fin_eq_int m e z :
  compare_fin m e z 0 = Eq -> fin_is m e z.
Proof.
  unfold fin_is, compare_fin. destruct (Z.leb_spec 0 e) as [He|He]; intros H.
  - rewrite Z.min_r in H by lia. rewrite !Z.sub_0_r, Z.mul_1_r in H.
    now apply Z.compare_eq.
  - rewrite Z.min_l in H by lia. rewrite Z.sub_diag, Z.mul_1_r, Z.sub_0_l in H.
    now apply Z.compare_eq.
Qed.

Lemma truncate_int m e z : fin_is m e z -> truncate m e = z.
Proof.
  unfold fin_is, truncate.
  destruct (Z.leb_spec 0 e) as [He|He]; intros H; [easy|].
  subst m. apply Z.quot_mul.
  assert (0 < 2 ^ (- e)) by (apply Z.pow_pos_nonneg; lia). lia.
Qed.

Lemma isInteger_fin m e :
  (0 <=? e) || (m mod 2 ^ (- e) =? 0) = true <-> exists z, fin_is m e z.
Proof.
  unfold fin_is. destruct (Z.leb_spec 0 e) as [He|He]; cbn.
  - split; eauto.
  - assert (0 < 2 ^ (- e)) by (apply Z.pow_pos_nonneg; lia).
    rewrite Z.eqb_eq. split.
    + intros Hm. exists (m / 2 ^ (- e)).
      pose proof (Z.div_mod m (2 ^ (- e))). lia.
    + intros [z ->]. apply Z.mod_mul. lia.
Qed.

Lemma represents_fin x z :
  represents x z <-> exists m e, classify x = IsFin m e /\ fin_is m e z.
Proof.
  unfold represents, compare. rewrite classify_of_Z.
  destruct (classify x) as [|s|m e].
  - split; [discriminate | intros (m & e & H & _); discriminate].
  - split; [destruct s; discriminate | intros (m & e & H & _); discriminate].
  - split.
    + intros H. exists m, e. split; [reflexivity|].
      apply compare_fin_eq_int. congruence.
    + intros (m' & e' & H & Hz). injection H as <- <-.
      rewrite (compare_fin_int _ _ _ _ Hz), Z.compare_refl. reflexivity.
Qed.

Lemma ushr_zero x : ushr x (of_Z 0) = of_Z (ToUint32 x).
Proof.
  unfold ushr. change (ToUint32 (of_Z 0) mod 32) with 0.
  now rewrite Z.shiftr_0_r.
Qed.

Lemma ToUint32_range x : 0 <= ToUint32 x < 2 ^ 32.
Proof.
  unfold ToUint32. destruct (classify x); try lia.
  apply Z.mod_pos_bound. lia.
Qed.

(** The round trip through [>>> 0] succeeds exactly on the integers of
    the unsigned 32-bit range. *)
Lemma uint32_round_trip x :
  equal (ushr x (of_Z 0)) x = true <->
  exists z, 0 <= z < 2 ^ 32 /\ represents x z.
Proof.
  rewrite ushr_zero. unfold equal, compare. rewrite classify_of_Z.
  pose proof (ToUint32_range x) as Hr. revert Hr.
  unfold ToUint32.
  destruct (classify x) as [|s|m e] eqn:Hx; intros Hr.
  - split; [discriminate|]. intros (z & _ & H).
    apply represents_fin in H. destruct H as (m & e & H & _). congruence.
  - split; [destruct s; discriminate|]. intros (z & _ & H).
    apply represents_fin in H. destruct H as (m & e & H & _). congruence.
  - split.
    + intros H. exists (truncate m e mod 2 ^ 32). split; [exact Hr|].
      apply represents_fin. exists m, e. split; [exact Hx|].
      apply compare_fin_eq_int. rewrite compare_fin_sym.
      destruct (compare_fin _ 0 m e); try discriminate. reflexivity.
    + intros (z & Hz & H). apply represents_fin in H.
      destruct H as (m' & e' & H & Hf). rewrite Hx in H. injection H as <- <-.
      rewrite (truncate_int _ _ _ Hf), Z.mod_small by exact Hz.
      rewrite compare_fin_sym, (compare_fin_int _ _ _ _ Hf), Z.compare_refl.
      reflexivity.
Qed.

Lemma le_int x z w : represents x z -> le x (of_Z w) = (z <=? w).
Proof.
  intros H. apply represents_fin in H. destruct H as (m & e & Hx & Hf).
  unfold le, compare. rewrite Hx, classify_of_Z, (compare_fin_int _ _ _ _ Hf).
  unfold Z.leb. destruct (z ?= w); reflexivity.
Qed.

Lemma ge_int x z w : represents x z -> ge x (of_Z w) = (w <=? z).
Proof.
  intros H. apply represents_fin in H. destruct H as (m & e & Hx & Hf).
  unfold ge, le, compare.
  rewrite Hx, classify_of_Z, compare_fin_sym, (compare_fin_int _ _ _ _ Hf).
  rewrite <- Z.compare_antisym.
  unfold Z.leb. destruct (w ?= z); reflexivity.
Qed.

Lemma isInteger_represents x :
  isInteger x = true <-> exists z, represents x z.
Proof.
  unfold isInteger. split.
  - destruct (classify x) as [|s|m e] eqn:Hx; try discriminate.
    intros H. apply isInteger_fin in H. destruct H as [z Hz].
    exists z. apply represents_fin. eauto.
  - intros [z H]. apply represents_fin in H.
    destruct H as (m & e & -> & Hf). apply isInteger_fin. eauto.
Qed.

End NumberFacts.

(** ** Primitive inspectors *)

Lemma returns_ret {World A} (a : A) : returns (World := World) (ret a) a.
Proof. intros st. split; reflexivity. Qed.

Lemma isUInt8_spec x :
  isUInt8 x = true <->
  exists n z, x = VNumber n /\ Number.represents n z /\ 0 <= z <= 255.
Proof.
  unfold isUInt8. split.
  - destruct x; try discriminate. cbn [Number_isInteger].
    intros H. apply andb_true_iff in H. destruct H as [Hi H].
    apply NumberFacts.isInteger_represents in Hi. destruct Hi as [z Hz].
    rewrite (NumberFacts.ge_int _ _ _ Hz), (NumberFacts.le_int _ _ _ Hz) in H.
    exists n, z. repeat split; trivial; lia.
  - intros (n & z & -> & Hz & Hr). cbn [Number_isInteger].
    rewrite (NumberFacts.ge_int _ _ _ Hz), (NumberFacts.le_int _ _ _ Hz).
    apply andb_true_iff. split.
    + apply NumberFacts.isInteger_represents. eauto.
    + apply andb_true_iff. split; apply Z.leb_le; lia.
Qed.

Lemma isUInt32_spec {World} conv (x : Value) (st : Store World) :
  fst (call (isUInt32 conv) x st) = Return true <->
  exists n z, x = VNumber n /\ Number.represents n z /\ 0 <= z < 2 ^ 32.
Proof.
  split.
  - destruct x; try discriminate. cbn. intros H.
    assert (Hu : Number.equal (Number.ushr n (Number.of_Z 0)) n = true)
      by (injection H; trivial).
    apply NumberFacts.uint32_round_trip in Hu. destruct Hu as (z & Hr & Hz).
    eauto.
  - intros (n & z & -> & Hz & Hr). cbn. f_equal.
    apply NumberFacts.uint32_round_trip. eauto.
Qed.

(** C7.  The boundary cases of the numeric inspectors: [isUInt32] is true
    at 4294967295 and false at 4294967296 and at -1; [isUInt8] is true at
    255 and false at 256; [isInt] is false at NaN and at Infinity while
    [isNumber] is true at NaN.  In general [isUInt32] returns the outcome
    of the round trip [x >>> 0 === x] on a number, which succeeds exactly
    on the integers from 0 to 2^32 - 1, and returns true on nothing else;
    [isUInt8] is true exactly on the integers from 0 to 255; and every
    number that is not finite is rejected by [isInt] and accepted by
    [isNumber]. *)
Theorem numeric_boundaries :
  forall (World : Type) (conv : Value -> Number.t),
    (returns (World := World)
       (call (isUInt32 conv) (VNumber (Number.of_Z 4294967295))) true /\
     returns (World := World)
       (call (isUInt32 conv) (VNumber (Number.of_Z 4294967296))) false /\
     returns (World := World)
       (call (isUInt32 conv) (VNumber (Number.of_Z (-1)))) false) /\
    (isUInt8 (VNumber (Number.of_Z 255)) = true /\
     isUInt8 (VNumber (Number.of_Z 256)) = false) /\
    (isInt (VNumber Number.NaN) = false /\
     isInt (VNumber Number.Infinity) = false /\
     isNumber (VNumber Number.NaN) = true) /\
    (forall n,
       returns (World := World) (call (isUInt32 conv) (VNumber n))
         (Number.equal (Number.ushr n (Number.of_Z 0)) n)) /\
    (forall n,
       Number.equal (Number.ushr n (Number.of_Z 0)) n = true <->
       exists z, 0 <= z < 2 ^ 32 /\ Number.represents n z) /\
    (forall (x : Value) (st : Store World),
       fst (call (isUInt32 conv) x st) = Return true <->
       exists n z, x = VNumber n /\ Number.represents n z /\ 0 <= z < 2 ^ 32) /\
    (forall x,
       isUInt8 x = true <->
       exists n z, x = VNumber n /\ Number.represents n z /\ 0 <= z <= 255) /\
    (forall n,
       Number.is_finite n = false ->
       isInt (VNumber n) = false /\ isNumber (VNumber n) = true).
Proof.
  intros World conv. repeat split;
    try reflexivity;
    try apply NumberFacts.uint32_round_trip;
    try apply isUInt32_spec;
    try apply isUInt8_spec.
  revert H. unfold isInt, Number_isInteger, Number.isInteger, Number.is_finite.
  destruct (Number.classify n); [reflexivity.. | discriminate].
Qed.

(** C10.  [isPrimitive] is true exactly on undefined, null, the numbers
    (NaN and Infinity among them), the strings, true and false, and,
    through [isString], on the boxed String objects; boxed Number and
    boxed Boolean objects are not primitive. *)
Theorem isPrimitive_spec :
  (forall x,
     isPrimitive x = true <->
     x = VUndefined \/ x = VNull \/
     (exists n, x = VNumber n) \/
     (exists s, x = VString s) \/
     x = VBoolean true \/ x = VBoolean false \/
     (exists r s props, x = VObject r (KBoxedString s) props)) /\
  isPrimitive (VNumber Number.NaN) = true /\
  isPrimitive (VNumber Number.Infinity) = true /\
  (forall r s props, isPrimitive (VObject r (KBoxedString s) props) = true) /\
  (forall r n props, isPrimitive (VObject r (KBoxedNumber n) props) = false) /\
  (forall r b props, isPrimitive (VObject r (KBoxedBoolean b) props) = false).
Proof.
  repeat split; try reflexivity.
  - destruct x as [| |b|n|z|s|id|r k props]; cbn; intros H;
      try discriminate; eauto 8.
    + destruct b; eauto 8.
    + destruct k; try discriminate. eauto 10.
  - intros [->|[->|[[n ->]|[[s ->]|[->|[->|(r & s & props & ->)]]]]]];
      reflexivity.
Qed.

(** ** Union and intersection *)

(** C9.  [isAnyOf(isA)] and [isAllOf(isA)] behave as [isA] on every value
    (outcome and effects alike); [isAnyOf()] returns false and
    [isAllOf()] returns true on every value. *)
Theorem union_intersection_identities :
  forall World (isA : Inspector World) (v : Value) (st : Store World),
    call (isAnyOf [isA]) v st = call isA v st /\
    call (isAllOf [isA]) v st = call isA v st /\
    call (isAnyOf []) v st = (Return false, st) /\
    call (isAllOf []) v st = (Return true, st).
Proof.
  intros World isA v st. repeat split.
  - cbn. unfold bind. destruct (call isA v st) as [[[|]|e] st']; reflexivity.
  - cbn. unfold bind. destruct (call isA v st) as [[[|]|e] st']; reflexivity.
Qed.

(** ** Exact values *)

Lemma Number_compare_refl n :
  Number.is_nan n = false -> Number.compare n n = Some Eq.
Proof.
  unfold Number.compare. destruct n as [s|s| |s m e]; cbn; intros H;
    try discriminate.
  - reflexivity.
  - destruct s; reflexivity.
  - unfold Number.compare_fin. now rewrite Z.compare_refl.
Qed.

Lemma Number_equal_compare a b :
  Number.equal a b = true <-> Number.compare a b = Some Eq.
Proof.
  unfold Number.equal. destruct (Number.compare a b) as [[ | | ]|];
    split; congruence.
Qed.

Lemma Number_compare_nan_r a b :
  Number.is_nan b = true -> Number.compare a b = None.
Proof.
  destruct b; try discriminate. intros _. unfold Number.compare.
  destruct (Number.classify a); reflexivity.
Qed.

Lemma strict_equals_identical x v :
  is_NaN v = false -> (strict_equals x v = true <-> identical x v).
Proof.
  destruct x, v; cbn; intros Hv; try (split; [discriminate | contradiction]);
    try tauto.
  - destruct b, b0; cbn; split; congruence.
  - rewrite Number_equal_compare. split; [tauto|].
    intros [[_ H]|H]; [congruence | exact H].
  - apply Z.eqb_eq.
  - apply String.eqb_eq.
  - apply Nat.eqb_eq.
  - apply Nat.eqb_eq.
Qed.

Lemma strict_equals_refl v : is_NaN v = false -> strict_equals v v = true.
Proof.
  intros H. apply strict_equals_identical; [exact H|].
  destruct v; cbn; trivial.
  right. apply Number_compare_refl. exact H.
Qed.

(** C8, as the code has it.  [isExact(v)] returns [x === v] and has no
    effect.  For every [v] other than NaN that is true exactly on the
    inputs identical to [v], so [isExact(v)(v)] is true and an object with
    another reference is rejected whatever it holds; [isExact(NaN)]
    rejects every input, NaN included.  Numbers are compared by value:
    [isExact(0)] accepts [-0]. *)
Theorem isExact_strict_equality :
  forall World (v x : Value) (st : Store World),
    call (isExact v) x st = (Return (strict_equals x v), st) /\
    (is_NaN v = false -> (strict_equals x v = true <-> identical x v)) /\
    (is_NaN v = false -> call (isExact v) v st = (Return true, st)) /\
    (is_NaN v = true -> call (isExact v) x st = (Return false, st)) /\
    (forall r1 r2 k1 k2 p1 p2,
       r1 <> r2 ->
       call (isExact (VObject r1 k1 p1)) (VObject r2 k2 p2) st =
       (Return false, st)) /\
    call (isExact (VNumber (Number.of_Z 0))) (VNumber Number.NegZero) st =
    (Return true, st).
Proof.
  intros World v x st. repeat split.
  - now apply strict_equals_identical.
  - now apply strict_equals_identical.
  - intros H. cbn. unfold ret. now rewrite strict_equals_refl.
  - intros H. destruct v; try discriminate. cbn in H. cbn. unfold ret.
    destruct x; try reflexivity. cbn. unfold Number.equal.
    now rewrite Number_compare_nan_r.
  - intros r1 r2 k1 k2 p1 p2 H. cbn. unfold ret.
    apply Nat.eqb_neq in H. rewrite Nat.eqb_sym. now rewrite H.
Qed.

(** C8 as stated fails at NaN: NaN is identical to NaN, yet
    [isExact(NaN)(NaN)] is false. *)
Lemma isExact_NaN_not_reflexive :
  identical (VNumber Number.NaN) (VNumber Number.NaN) /\
  call (isExact (VNumber Number.NaN)) (VNumber Number.NaN) Samples.st0 =
  (Return false, Samples.st0).
Proof. split; [left; split; reflexivity | reflexivity]. Qed.

(** ** The lazy inspector *)

Lemma apply_each_is_count {World} (lazy : M World (Inspector World))
  (count : World -> nat) :
  (forall st, exists isT st1,
      lazy st = (Return isT, st1) /\
      count (world st1) = S (count (world st)) /\
      forall y st2, exists b,
        fst (call isT y st2) = Return b /\
        count (world (snd (call isT y st2))) = count (world st2)) ->
  forall xs st,
    count (world (snd (apply_each (is' lazy) xs st))) =
    (count (world st) + List.length xs)%nat.
Proof.
  intros H xs. induction xs as [|x xs IH]; intros st.
  - cbn. lia.
  - cbn [apply_each List.length]. unfold bind at 1. cbn [call is'].
    unfold bind at 1.
    destruct (H st) as (isT & st1 & Hl & Hc & Hi). rewrite Hl.
    destruct (Hi x st1) as (b & Hb & Hw).
    destruct (call isT x st1) as [[b'|e] st2]; [|discriminate]. cbn in Hw.
    unfold bind. specialize (IH st2).
    destruct (apply_each (is' lazy) xs st2) as [[bs|e] st3];
      cbn in IH |- *; lia.
Qed.

(** C6.  [is(f)] applied to [x] runs [f()] first and then the inspector it
    returned on [x], in the store [f] left, and returns that result; when
    [f()] throws, the application throws the same value from the same
    store.  Nothing is cached: along any run of applications, a supplier
    that bumps a counter on each call has bumped it once per
    application. *)
Theorem is_lazy :
  forall World (lazy : M World (Inspector World)) (x : Value)
         (st : Store World),
    call (is' lazy) x st =
      match lazy st with
      | (Return isT, st1) => call isT x st1
      | (Throw e, st1) => (Throw e, st1)
      end /\
    (forall e st1,
       lazy st = (Throw e, st1) -> call (is' lazy) x st = (Throw e, st1)) /\
    (forall count : World -> nat,
       (forall s, exists isT s1,
           lazy s = (Return isT, s1) /\
           count (world s1) = S (count (world s)) /\
           forall y s2, exists b,
             fst (call isT y s2) = Return b /\
             count (world (snd (call isT y s2))) = count (world s2)) ->
       forall xs s,
         count (world (snd (apply_each (is' lazy) xs s))) =
         (count (world s) + List.length xs)%nat).
Proof.
  intros World lazy x st. split; [|split].
  - cbn. unfold bind. destruct (lazy st) as [[isT|e] st1]; reflexivity.
  - intros e st1 H. cbn. unfold bind. now rewrite H.
  - intros count H. now apply apply_each_is_count.
Qed.

(** [is_lazy] at the counting supplier, applied three times, and at the
    throwing one. *)
Lemma is_lazy_witness :
  world (snd (apply_each (is' Samples.counting_supplier)
                [Samples.str "a"; Samples.num 1; VNull] Samples.st0)) = 3%nat /\
  call (is' Samples.throwing_supplier) VNull Samples.st0 =
  (Throw (Samples.str "Evaluation error"), Samples.st0).
Proof.
  split.
  - refine (proj2 (proj2 (is_lazy nat Samples.counting_supplier VNull
                            Samples.st0)) (fun w => w) _ _ Samples.st0).
    intros st. exists (native isString), (mkStore (next_ref st) (S (world st))).
    repeat split. intros y st2. exists (isString y). split; reflexivity.
  - exact (proj1 (proj2 (is_lazy nat Samples.throwing_supplier VNull
                           Samples.st0)) _ _ eq_refl).
Defined.

(** ** Effect-free computations *)

Section Returns.

Context {World : Type}.

Lemma returns_bind {A B} (m : M World A) (k : A -> M World B) a b :
  returns m a -> returns (k a) b -> returns (bind m k) b.
Proof.
  intros Hm Hk st. unfold bind. destruct (Hm st) as [H1 H2].
  destruct (m st) as [[a'|e] st1]; cbn in H1, H2; [|discriminate].
  injection H1 as ->. destruct (Hk st1) as [H3 H4]. split; congruence.
Qed.

(** The same when the value of [m] depends on the store but every value
    it can take satisfies [Q]. *)
Lemma returns_bind_some {A B} (Q : A -> Prop) (m : M World A)
  (k : A -> M World B) b :
  (forall st, exists a,
      fst (m st) = Return a /\ world (snd (m st)) = world st /\ Q a) ->
  (forall a, Q a -> returns (k a) b) ->
  returns (bind m k) b.
Proof.
  intros Hm Hk st. unfold bind. destruct (Hm st) as (a & H1 & H2 & HQ).
  destruct (m st) as [[a'|e] st1]; cbn in H1, H2; [|discriminate].
  injection H1 as ->. destruct (Hk a HQ st1) as [H3 H4]. split; congruence.
Qed.

Lemma decides_native (f : Value -> bool) :
  decides (World := World) (native f) f.
Proof. intros x. apply returns_ret. Qed.

Lemma decides_isAny p : decides (World := World) isAny p -> Store World ->
  forall x, p x = true.
Proof.
  intros H st x. destruct (H x st) as [H1 _]. cbn in H1. congruence.
Qed.

Lemma forOf_all_decides (isT : Inspector World) p vs :
  decides isT p -> returns (forOf_all isT vs) (forallb p vs).
Proof.
  intros H. induction vs as [|v vs IH]; cbn.
  - apply returns_ret.
  - apply returns_bind with (a := p v); [apply H|].
    destruct (p v); cbn; [exact IH | apply returns_ret].
Qed.

Lemma decides_stable (isT : Inspector World) p : decides isT p -> stable isT.
Proof.
  intros Hp v st H st'. destruct (Hp v st) as [H1 _], (Hp v st') as [H2 _].
  congruence.
Qed.

Lemma isUInt32_stable conv : stable (World := World) (isUInt32 conv).
Proof.
  intros v st H st'. destruct v; try discriminate. exact H.
Qed.

(** [if (!m) return false; k] and [m && k] return true when [m] does and
    [k] does after it. *)
Lemma guard_true (m k : M World bool) st :
  fst ((b <- m ;; if negb b then ret false else k) st) = Return true <->
  exists st1, m st = (Return true, st1) /\ fst (k st1) = Return true.
Proof.
  unfold bind. destruct (m st) as [[[|]|e] st1]; cbn; split;
    try discriminate; eauto.
  - intros (st2 & [= <-] & H). exact H.
  - intros (st2 & [=] & _).
  - intros (st2 & [=] & _).
Qed.

Lemma and_true (m k : M World bool) st :
  fst ((b <- m ;; if b then k else ret false) st) = Return true <->
  exists st1, m st = (Return true, st1) /\ fst (k st1) = Return true.
Proof.
  unfold bind. destruct (m st) as [[[|]|e] st1]; cbn; split;
    try discriminate; eauto.
  - intros (st2 & [= <-] & H). exact H.
  - intros (st2 & [=] & _).
  - intros (st2 & [=] & _).
Qed.

Lemma call_true (isT : Inspector World) v st :
  fst (call isT v st) = Return true <->
  exists st1, call isT v st = (Return true, st1).
Proof.
  split.
  - destruct (call isT v st) as [o st1]. cbn. intros ->. eauto.
  - intros [st1 ->]. reflexivity.
Qed.

Lemma forOf_all_true (isT : Inspector World) vs :
  stable isT ->
  forall st,
    fst (forOf_all isT vs st) = Return true <->
    forall v, In v vs -> accepts isT v.
Proof.
  intros Hs. induction vs as [|v vs IH]; intros st; cbn [forOf_all].
  - split; [intros _ v [] | reflexivity].
  - rewrite guard_true. split.
    + intros (st1 & Hc & Hrest) w [<-|Hw].
      * apply (Hs v st). now rewrite Hc.
      * now apply (IH st1).
    + intros H. destruct (proj1 (call_true isT v st)) as [st1 Hc].
      { apply H. now left. }
      exists st1. split; [exact Hc|]. apply IH. intros w Hw. apply H.
      now right.
Qed.

Lemma entry_arrays_ok entries (st : Store World) :
  exists vs,
    fst (entry_arrays entries st) = Return vs /\
    world (snd (entry_arrays entries st)) = world st /\
    Forall2 (fun v kv => exists r, v = VObject r (KArray [fst kv; snd kv]) [])
      vs entries.
Proof.
  revert st. induction entries as [|[k v] entries IH]; intros st; cbn.
  - exists []. repeat split. constructor.
  - unfold bind, fresh. cbn.
    destruct (IH (mkStore (S (next_ref st)) (world st))) as (vs & H1 & H2 & H3).
    destruct (entry_arrays entries _) as [[vs'|e] st1]; cbn in H1, H2;
      [|discriminate].
    injection H1 as ->. eexists. repeat split; [exact H2|].
    constructor; [eauto | exact H3].
Qed.

Lemma iterate_ok x (st : Store World) :
  isIterable x = true ->
  exists vs,
    fst (iterate x st) = Return vs /\ world (snd (iterate x st)) = world st.
Proof.
  destruct x as [| | | | |s| |r k props]; try discriminate.
  - intros _. exists (chars s). split; reflexivity.
  - destruct k; try discriminate; intros _; cbn;
      try (eexists; split; reflexivity).
    destruct (entry_arrays_ok entries st) as (vs & H1 & H2 & _). eauto.
Qed.

End Returns.

(** ** Iterables *)

(** C1.  On a value that is not iterable [isIterableOf(isT)] returns
    false.  On an iterable it returns false when [isT] is literally
    [isNever], even if nothing is produced, and true, without running the
    iteration, when [isT] is literally [isAny].  For every other
    inspector it returns true exactly when every element the iteration of
    [x] produces satisfies [isT] (an inspector whose verdict depends on
    hidden state has no such thing as the elements it accepts, hence
    [stable]); so an iterable that produces nothing passes.  When [isT]
    is a predicate the result is the conjunction of its values on the
    elements and the call has no effect on the closures' state. *)
Theorem isIterableOf_spec :
  forall World (isT : Inspector World) (x : Value) (st : Store World),
    (isIterable x = false ->
     call (isIterableOf isT) x st = (Return false, st)) /\
    (isIterable x = true ->
     call (isIterableOf isNever) x st = (Return false, st) /\
     call (isIterableOf isAny) x st = (Return true, st)) /\
    (isIterable x = true ->
     is_isNever isT = false ->
     exists vs,
       fst (iterate x st) = Return vs /\
       (stable isT ->
        (fst (call (isIterableOf isT) x st) = Return true <->
         forall v, In v vs -> accepts isT v)) /\
       (vs = [] -> fst (call (isIterableOf isT) x st) = Return true) /\
       (forall p,
          decides isT p ->
          fst (call (isIterableOf isT) x st) = Return (forallb p vs) /\
          world (snd (call (isIterableOf isT) x st)) = world st)).
Proof.
  intros World isT x st. split; [|split].
  - intros Hx. cbn. now rewrite Hx.
  - intros Hx. cbn. rewrite Hx. split; reflexivity.
  - intros Hx Hn.
    destruct (iterate_ok x st Hx) as (vs & Hvs & Hw).
    exists vs. split; [exact Hvs|].
    cbn [call isIterableOf]. rewrite Hx, Hn. cbn [negb].
    destruct (iterate x st) as [[vs'|e] st1] eqn:Hit; cbn in Hvs, Hw;
      [|discriminate].
    injection Hvs as ->.
    destruct isT as [| |body]; cbn [is_isAny]; [| discriminate |].
    + split; [|split].
      * intros _. split; [intros _ v _ st'|]; reflexivity.
      * reflexivity.
      * intros p Hp. split; [|reflexivity]. cbn. f_equal. symmetry.
        apply forallb_forall. intros v _. now apply (decides_isAny p Hp st).
    + unfold bind. rewrite Hit. split; [|split].
      * intros Hs. now apply forOf_all_true.
      * intros ->. reflexivity.
      * intros p Hp.
        destruct (forOf_all_decides (Fn body) p vs Hp st1) as [H1 H2].
        split; congruence.
Qed.

Lemma isIterableOf_spec_witness :
  stable (World := nat) Samples.uint32 /\
  fst (call (isIterableOf Samples.uint32)
         (Samples.array 1 [Samples.num 1; Samples.num 2]) Samples.st0) =
    Return true /\
  decides (World := nat) (native isString) isString /\
  call (isIterableOf isNever) (Samples.array 1 []) Samples.st0 =
    (Return false, Samples.st0) /\
  fst (call (isIterableOf (native isString)) (Samples.array 1 [])
         Samples.st0) = Return true /\
  fst (call (isIterableOf (native isString))
         (Samples.array 1 [Samples.str "a"; Samples.num 1]) Samples.st0) =
    Return false.
Proof.
  split; [apply (isUInt32_stable (fun _ => Number.NaN))|]. split.
  { destruct (proj2 (proj2 (isIterableOf_spec nat Samples.uint32
                (Samples.array 1 [Samples.num 1; Samples.num 2])
                Samples.st0)) eq_refl eq_refl)
      as (vs & Hvs & Hiff & _).
    injection Hvs as <-. apply (Hiff (isUInt32_stable _)).
    intros v [<-|[<-|[]]] st; reflexivity. }
  split; [apply decides_native|]. split; [|split].
  - exact (proj1 (proj1 (proj2 (isIterableOf_spec nat isNever
                                  (Samples.array 1 []) Samples.st0))
                   eq_refl)).
  - destruct (proj2 (proj2 (isIterableOf_spec nat (native isString)
                              (Samples.array 1 []) Samples.st0))
                eq_refl eq_refl) as (vs & Hvs & _ & Hempty & _).
    injection Hvs as <-. exact (Hempty eq_refl).
  - destruct (proj2 (proj2 (isIterableOf_spec nat (native isString)
                (Samples.array 1 [Samples.str "a"; Samples.num 1])
                Samples.st0)) eq_refl eq_refl)
      as (vs & Hvs & _ & _ & Hres).
    injection Hvs as <-. exact (proj1 (Hres isString (decides_native _))).
Defined.

(** ** Maps *)

Section MapOf.

Context {World : Type}.

Lemma isIterableOf_iterator (isT : Inspector World) p r vs props :
  decides isT p ->
  returns (call (isIterableOf isT) (VObject r (KIterator vs) props))
    (negb (is_isNever isT) && forallb p vs).
Proof.
  intros Hp. cbn. destruct isT as [| |body]; cbn.
  - intros st. split; [|reflexivity]. cbn. f_equal. symmetry.
    apply forallb_forall. intros v _. now apply (decides_isAny p Hp st).
  - apply returns_ret.
  - apply returns_bind with (a := vs); [apply returns_ret|].
    now apply forOf_all_decides.
Qed.

Lemma Map_keys_ok r entries props (st : Store World) :
  exists ks,
    fst (Map_keys (VObject r (KMap entries) props) st) = Return ks /\
    world (snd (Map_keys (VObject r (KMap entries) props) st)) = world st /\
    exists r', ks = VObject r' (KIterator (map fst entries)) [].
Proof. eexists. cbn. repeat split. eauto. Qed.

Lemma Map_values_ok r entries props (st : Store World) :
  exists vs,
    fst (Map_values (VObject r (KMap entries) props) st) = Return vs /\
    world (snd (Map_values (VObject r (KMap entries) props) st)) = world st /\
    exists r', vs = VObject r' (KIterator (map snd entries)) [].
Proof. eexists. cbn. repeat split. eauto. Qed.

Lemma isMapOf_returns (isK isV : Inspector World) pK pV r entries props :
  decides isK pK -> decides isV pV ->
  returns (call (isMapOf isK isV) (VObject r (KMap entries) props))
    ((negb (is_isNever isK) && forallb pK (map fst entries)) &&
     (negb (is_isNever isV) && forallb pV (map snd entries))).
Proof.
  intros HK HV. cbn [call isMapOf isMap instanceof].
  eapply returns_bind_some; [apply Map_keys_ok|].
  intros ks [r' ->].
  eapply returns_bind; [now apply isIterableOf_iterator|].
  destruct (negb (is_isNever isK) && forallb pK (map fst entries));
    cbn [andb]; [|apply returns_ret].
  eapply returns_bind_some; [apply Map_values_ok|].
  intros vs [r'' ->]. now apply isIterableOf_iterator.
Qed.

Lemma isIterableOf_iterator_true (isT : Inspector World) r vs props st :
  stable isT ->
  fst (call (isIterableOf isT) (VObject r (KIterator vs) props) st) =
    Return true <->
  is_isNever isT = false /\ forall v, In v vs -> accepts isT v.
Proof.
  intros Hs. cbn. destruct isT as [| |body]; cbn.
  - split; [intros _; split; [|intros v _ st']|]; reflexivity.
  - split; [discriminate | intros [[=] _]].
  - change (fst (forOf_all (Fn body) vs st) = Return true <->
            false = false /\ forall v, In v vs -> accepts (Fn body) v).
    rewrite (forOf_all_true (Fn body) vs Hs st). tauto.
Qed.

Lemma isMapOf_on_map (isK isV : Inspector World) r entries props st :
  call (isMapOf isK isV) (VObject r (KMap entries) props) st =
  (keys_ok <- call (isIterableOf isK)
                (VObject (next_ref st) (KIterator (map fst entries)) []) ;;
   if keys_ok then
     vs <- Map_values (VObject r (KMap entries) props) ;;
     call (isIterableOf isV) vs
   else ret false)
    (mkStore (S (next_ref st)) (world st)).
Proof. reflexivity. Qed.

Lemma isMapOf_true (isK isV : Inspector World) r entries props st :
  stable isK -> stable isV ->
  fst (call (isMapOf isK isV) (VObject r (KMap entries) props) st) =
    Return true <->
  is_isNever isK = false /\ is_isNever isV = false /\
  (forall k, In k (map fst entries) -> accepts isK k) /\
  (forall v, In v (map snd entries) -> accepts isV v).
Proof.
  intros HK HV. rewrite isMapOf_on_map, and_true. split.
  - intros (st1 & Hk & Hv).
    assert (Hk' := f_equal fst Hk). cbn [fst] in Hk'.
    apply isIterableOf_iterator_true in Hk'; [|exact HK].
    change (fst (call (isIterableOf isV)
                   (VObject (next_ref st1) (KIterator (map snd entries)) [])
                   (mkStore (S (next_ref st1)) (world st1))) = Return true)
      in Hv.
    apply isIterableOf_iterator_true in Hv; [|exact HV]. tauto.
  - intros (HnK & HnV & Hkeys & Hvals).
    destruct (proj1 (call_true (isIterableOf isK)
                       (VObject (next_ref st) (KIterator (map fst entries)) [])
                       (mkStore (S (next_ref st)) (world st)))) as [st1 Hk].
    { apply isIterableOf_iterator_true; [exact HK | tauto]. }
    exists st1. split; [exact Hk|].
    change (fst (call (isIterableOf isV)
                   (VObject (next_ref st1) (KIterator (map snd entries)) [])
                   (mkStore (S (next_ref st1)) (world st1))) = Return true).
    apply isIterableOf_iterator_true; [exact HV | tauto].
Qed.

Lemma isMapOf_empty (isK isV : Inspector World) r props st :
  fst (call (isMapOf isK isV) (VObject r (KMap []) props) st) =
  Return (negb (is_isNever isK) && negb (is_isNever isV)).
Proof. destruct isK, isV; reflexivity. Qed.

End MapOf.

(** C5, as the code has it.  [isMapOf(isK, isV)] returns false on a
    value that is not a Map.  On a Map it returns true exactly when
    neither [isK] nor [isV] is literally [isNever], every key satisfies
    [isK] and every value satisfies [isV], the keys and the values being
    checked separately; so an empty Map passes unless one of the two
    inspectors is [isNever], and then it fails.  When the inspectors are
    predicates the result is the conjunction below and the call has no
    effect on the closures' state. *)
Theorem isMapOf_spec :
  forall World (isK isV : Inspector World) (x : Value) (st : Store World),
    (isMap x = false -> call (isMapOf isK isV) x st = (Return false, st)) /\
    (forall r entries props,
       x = VObject r (KMap entries) props ->
       (stable isK ->
        stable isV ->
        (fst (call (isMapOf isK isV) x st) = Return true <->
         is_isNever isK = false /\ is_isNever isV = false /\
         (forall k, In k (map fst entries) -> accepts isK k) /\
         (forall v, In v (map snd entries) -> accepts isV v))) /\
       (entries = [] ->
        fst (call (isMapOf isK isV) x st) =
          Return (negb (is_isNever isK) && negb (is_isNever isV))) /\
       (forall pK pV,
          decides isK pK ->
          decides isV pV ->
          fst (call (isMapOf isK isV) x st) =
            Return ((negb (is_isNever isK) && forallb pK (map fst entries)) &&
                    (negb (is_isNever isV) && forallb pV (map snd entries))) /\
          world (snd (call (isMapOf isK isV) x st)) = world st)).
Proof.
  intros World isK isV x st. split.
  - intros Hx. cbn. now rewrite Hx.
  - intros r entries props ->. split; [|split].
    + intros HK HV. now apply isMapOf_true.
    + intros ->. apply isMapOf_empty.
    + intros pK pV HK HV.
      exact (isMapOf_returns isK isV pK pV r entries props HK HV st).
Qed.

Lemma isMapOf_spec_witness :
  fst (call (isMapOf (native isString) Samples.uint32)
         (VObject 1 (KMap [(Samples.str "a", Samples.num 1)]) [])
         Samples.st0) = Return true /\
  fst (call (isMapOf (native isString) (native isNumber))
         (VObject 1 (KMap [(Samples.str "a", Samples.num 1);
                           (Samples.num 1, Samples.num 2)]) [])
         Samples.st0) = Return false.
Proof.
  split.
  - apply (proj1 (proj2 (isMapOf_spec nat (native isString) Samples.uint32
                           _ Samples.st0) _ _ _ eq_refl)
             (decides_stable _ _ (decides_native _)) (isUInt32_stable _)).
    repeat split; intros v [<-|[]] st; reflexivity.
  - exact (proj1 (proj2 (proj2 (proj2 (isMapOf_spec nat (native isString)
                                         (native isNumber) _ Samples.st0)
                                 _ _ _ eq_refl))
                   isString isNumber (decides_native _) (decides_native _))).
Defined.

(** C5 as stated fails at the empty Map with [isNever] for the keys: the
    value is a Map, each of its keys satisfies [isK] and each of its
    values satisfies [isV] (there are none), and the result is false. *)
Lemma isMapOf_isNever_empty_map :
  isMap (VObject 1 (KMap []) []) = true /\
  (forall k, In k (map fst (@nil (Value * Value))) ->
             accepts (World := nat) isNever k) /\
  (forall v, In v (map snd (@nil (Value * Value))) ->
             accepts (World := nat) isAny v) /\
  fst (call (isMapOf isNever isAny) (VObject 1 (KMap []) []) Samples.st0) =
    Return false.
Proof. repeat split; intros ? []. Qed.

(** ** Property reads *)

Lemma index_key_inj i j : index_key i = index_key j -> i = j.
Proof.
  unfold index_key. intros H. apply Unsigned.to_uint_inj.
  apply (f_equal NilEmpty.uint_of_string) in H.
  rewrite !NilEmpty.usu in H. congruence.
Qed.

Lemma assoc_app {A} key (l1 l2 : list (string * A)) :
  assoc key (l1 ++ l2) =
  match assoc key l1 with Some v => Some v | None => assoc key l2 end.
Proof.
  induction l1 as [|[k v] l1 IH]; cbn; [reflexivity|].
  destruct (String.eqb key k); [reflexivity | exact IH].
Qed.

Lemma assoc_In {A} key (l : list (string * A)) v :
  assoc key l = Some v -> In (key, v) l.
Proof.
  induction l as [|[k w] l IH]; cbn; [discriminate|].
  destruct (String.eqb_spec key k) as [->|Hk].
  - intros [= ->]. now left.
  - intros H. right. now apply IH.
Qed.

Lemma assoc_None {A} key (l : list (string * A)) :
  assoc key l = None <-> ~ In key (map fst l).
Proof.
  induction l as [|[k w] l IH]; cbn; [tauto|].
  destruct (String.eqb_spec key k) as [->|Hk].
  - split; [discriminate | tauto].
  - rewrite IH. split; [intros H [E|I]; [congruence | tauto] | tauto].
Qed.

Lemma assoc_indexed_from vs :
  forall s k,
    (k < List.length vs)%nat ->
    assoc (index_key (s + k))
      (combine (map index_key (seq s (List.length vs))) vs) =
    Some (nth k vs VUndefined).
Proof.
  induction vs as [|v vs IH]; intros s k Hk; cbn in Hk; [lia|].
  cbn. destruct k as [|k].
  - rewrite Nat.add_0_r, String.eqb_refl. reflexivity.
  - destruct (String.eqb_spec (index_key (s + S k)) (index_key s)) as [E|_].
    + apply index_key_inj in E. lia.
    + rewrite <- Nat.add_succ_comm. apply IH. lia.
Qed.

Lemma get_prop_array_index r elems props k :
  (k < List.length elems)%nat ->
  get_prop (VObject r (KArray elems) props) (index_key k) =
  nth k elems VUndefined.
Proof.
  intros Hk. unfold get_prop, own_props, indexed. rewrite assoc_app.
  pose proof (assoc_indexed_from elems 0 k Hk) as H. cbn [Nat.add] in H.
  now rewrite H.
Qed.

Lemma forallb_ext_in {A} (f g : A -> bool) l :
  (forall a, In a l -> f a = g a) -> forallb f l = forallb g l.
Proof.
  induction l as [|a l IH]; cbn; intros H; [reflexivity|].
  rewrite (H a) by now left. f_equal. apply IH. intros b Hb. apply H.
  now right.
Qed.

Lemma forallb_combine_seq {A} (f : nat -> A -> bool) d ps :
  forall i,
    forallb (fun kp => f (fst kp) (snd kp))
      (combine (seq i (List.length ps)) ps) =
    forallb (fun k => f k (nth (k - i) ps d)) (seq i (List.length ps)).
Proof.
  induction ps as [|p ps IH]; intros i; cbn; [reflexivity|].
  rewrite Nat.sub_diag. f_equal. rewrite IH. apply forallb_ext_in.
  intros k Hk. apply in_seq in Hk.
  replace (k - i)%nat with (S (k - S i)) by lia. reflexivity.
Qed.

(** ** Tuples *)

Section TupleOf.

Context {World : Type}.

Lemma tuple_loop_decides (inspectors : list (Inspector World)) ps x :
  Forall2 decides inspectors ps ->
  forall i,
    returns (tuple_loop inspectors i x)
      (forallb (fun kp => snd kp (get_prop x (index_key (fst kp))))
         (combine (seq i (List.length ps)) ps)).
Proof.
  induction 1 as [|isT p inspectors ps Hp _ IH]; intros i; cbn -[index_key].
  - apply returns_ret.
  - eapply returns_bind; [apply Hp|].
    destruct (p (get_prop x (index_key i))); cbn; [apply IH|apply returns_ret].
Qed.

Lemma tuple_loop_ext (inspectors : list (Inspector World)) x x' :
  forall i st,
    (forall k, (i <= k < i + List.length inspectors)%nat ->
               get_prop x (index_key k) = get_prop x' (index_key k)) ->
    tuple_loop inspectors i x st = tuple_loop inspectors i x' st.
Proof.
  induction inspectors as [|isT inspectors IH]; intros i st H;
    cbn -[index_key]; [reflexivity|].
  cbn -[index_key] in H. rewrite <- (H i) by lia. unfold bind.
  destruct (call isT (get_prop x (index_key i)) st) as [[[|]|e] st1];
    cbn; try reflexivity.
  apply IH. intros k Hk. apply H. lia.
Qed.

Lemma tuple_loop_true (inspectors : list (Inspector World)) x :
  Forall stable inspectors ->
  forall i st,
    fst (tuple_loop inspectors i x st) = Return true <->
    forall k isT,
      nth_error inspectors k = Some isT ->
      accepts isT (get_prop x (index_key (i + k))).
Proof.
  induction 1 as [|isT inspectors Hs _ IH]; intros i st;
    cbn -[index_key].
  - split; [intros _ [|k] isT; discriminate | reflexivity].
  - rewrite guard_true. split.
    + intros (st1 & Hc & Hrest) [|k] isT' Hk; cbn in Hk.
      * injection Hk as <-. rewrite Nat.add_0_r. apply (Hs _ st).
        now rewrite Hc.
      * rewrite Nat.add_succ_r. now apply (IH (S i) st1).
    + intros H.
      destruct (proj1 (call_true isT (get_prop x (index_key i)) st))
        as [st1 Hc].
      { specialize (H 0%nat isT eq_refl). rewrite Nat.add_0_r in H. apply H. }
      exists st1. split; [exact Hc|]. apply IH. intros k isT' Hk.
      specialize (H (S k) isT' Hk). now rewrite Nat.add_succ_r in H.
Qed.

End TupleOf.

(** C2.  [isTupleOf(i_1, ..., i_n)] returns false on a value that is not
    an array.  On an array [a] of length at least [n] it returns true
    exactly when [i_k] accepts [a[k-1]] for every [k = 1..n], and with
    inspectors that are predicates its result is the conjunction of the
    [i_k(a[k-1])].  Two arrays with the same first [n] elements get the
    same outcome, whatever the inspectors: the elements from index [n] on
    play no part. *)
Theorem isTupleOf_prefix :
  forall World (inspectors : list (Inspector World)),
    (forall x st,
       isArray x = false ->
       call (isTupleOf inspectors) x st = (Return false, st)) /\
    (forall r elems props st,
       Forall stable inspectors ->
       (List.length inspectors <= List.length elems)%nat ->
       (fst (call (isTupleOf inspectors) (VObject r (KArray elems) props) st) =
          Return true <->
        forall k isT,
          nth_error inspectors k = Some isT ->
          accepts isT (nth k elems VUndefined))) /\
    (forall ps r elems props,
       Forall2 decides inspectors ps ->
       (List.length inspectors <= List.length elems)%nat ->
       returns (call (isTupleOf inspectors) (VObject r (KArray elems) props))
         (tuple_conj ps elems)) /\
    (forall r r' prefix rest rest' props props' st,
       List.length prefix = List.length inspectors ->
       call (isTupleOf inspectors) (VObject r (KArray (prefix ++ rest)) props)
         st =
       call (isTupleOf inspectors)
         (VObject r' (KArray (prefix ++ rest')) props') st).
Proof.
  intros World inspectors. split; [|split; [|split]].
  - intros x st Hx. cbn. now rewrite Hx.
  - intros r elems props st Hs Hlen.
    cbn [call isTupleOf isArray instanceof negb].
    rewrite (tuple_loop_true inspectors _ Hs 0 st). cbn [Nat.add].
    split; intros H k isT Hk; specialize (H k isT Hk);
      assert (k < List.length inspectors)%nat
        by (apply nth_error_Some; congruence);
      rewrite get_prop_array_index in * by lia; exact H.
  - intros ps r elems props Hps Hlen.
    cbn [call isTupleOf isArray instanceof negb].
    pose proof (Forall2_length Hps) as Hn.
    replace (tuple_conj ps elems) with
      (forallb (fun kp => snd kp (get_prop (VObject r (KArray elems) props)
                                    (index_key (fst kp))))
         (combine (seq 0 (List.length ps)) ps));
      [now apply tuple_loop_decides|].
    rewrite (forallb_combine_seq
               (fun k p => p (get_prop (VObject r (KArray elems) props)
                                (index_key k))) (fun _ => true)).
    unfold tuple_conj. apply forallb_ext_in. intros k Hk.
    apply in_seq in Hk. rewrite Nat.sub_0_r.
    rewrite get_prop_array_index by lia. reflexivity.
  - intros r r' prefix rest rest' props props' st Hlen.
    cbn [call isTupleOf isArray instanceof negb].
    apply tuple_loop_ext. intros k Hk.
    rewrite !get_prop_array_index by (rewrite length_app; lia).
    rewrite !app_nth1 by lia. reflexivity.
Qed.

Lemma isTupleOf_prefix_witness :
  fst (call (isTupleOf [native isString; Samples.uint32])
         (Samples.array 1 [Samples.str "a"; Samples.num 1; VNull])
         Samples.st0) = Return true /\
  Forall2 (decides (World := nat)) [native isString; native isNumber]
    [isString; isNumber] /\
  returns (World := nat)
    (call (isTupleOf [native isString; native isNumber])
       (Samples.array 1 [Samples.str "a"; Samples.num 1; VNull]))
    true /\
  call (isTupleOf [native isString; native isNumber])
    (Samples.array 1 ([Samples.str "a"; Samples.num 1] ++ [VNull]))
    Samples.st0 =
  call (isTupleOf [native isString; native isNumber])
    (Samples.array 2 ([Samples.str "a"; Samples.num 1] ++ []))
    Samples.st0.
Proof.
  assert (H : Forall2 (decides (World := nat))
                [native isString; native isNumber] [isString; isNumber])
    by (repeat constructor; apply decides_native).
  split; [|split; [exact H|split]].
  - apply (proj1 (proj2 (isTupleOf_prefix nat
                           [native isString; Samples.uint32]))
             1%nat [Samples.str "a"; Samples.num 1; VNull] [] Samples.st0).
    + repeat constructor;
        [apply (decides_stable _ _ (decides_native _))
        |apply (isUInt32_stable (fun _ => Number.NaN))].
    + cbn. lia.
    + intros [|[|[|k]]] isT [= <-] st; reflexivity.
  - refine (proj1 (proj2 (proj2 (isTupleOf_prefix nat
                                   [native isString; native isNumber])))
              [isString; isNumber] 1%nat
              [Samples.str "a"; Samples.num 1; VNull] [] H _).
    cbn. lia.
  - exact (proj2 (proj2 (proj2 (isTupleOf_prefix nat
                                  [native isString; native isNumber])))
             1%nat 2%nat [Samples.str "a"; Samples.num 1] [VNull] [] [] []
             Samples.st0 eq_refl).
Defined.

(** ** Object shapes *)






Section ObjectOf.

Context {World : Type}.
Variable chain : Kind -> Members.
Variable conv : Value -> M World Value.

Lemma shape_decides_tail entry (type : Shape World) p :
  shape_decides (entry :: type) p -> shape_decides type p.
Proof. intros H key isV Hin. apply H. now right. Qed.

Lemma object_loop_decides (type : Shape World) p x :
  shape_decides type p ->
  returns (object_loop chain type x)
    (forallb (fun entry => p (fst entry) (Get chain x (fst entry))) type).
Proof.
  induction type as [|[key isV] type IH]; intros Hp; cbn.
  - apply returns_ret.
  - eapply returns_bind; [apply (Hp key isV); now left|].
    destruct (p key (Get chain x key)); cbn; [|apply returns_ret].
    apply IH. now apply shape_decides_tail in Hp.
Qed.


Lemma object_loop_true (type : Shape World) x :
  shape_stable type ->
  forall st,
    fst (object_loop chain type x st) = Return true <->
    forall key isV, In (key, isV) type -> accepts isV (Get chain x key).
Proof.
  induction type as [|[key isV] type IH]; intros Hs st; cbn [object_loop].
  - split; [intros _ k i [] | reflexivity].
  - assert (Hs' : shape_stable type)
      by (intros k i Hin; apply (Hs k i); now right).
    rewrite guard_true. split.
    + intros (st1 & Hc & Hrest) k i [[= <- <-]|Hin].
      * apply (Hs key isV (or_introl eq_refl) _ st). now rewrite Hc.
      * now apply (IH Hs' st1).
    + intros H.
      destruct (proj1 (call_true isV (Get chain x key) st)) as [st1 Hc].
      { apply H. now left. }
      exists st1. split; [exact Hc|]. apply (IH Hs'). intros k i Hin.
      apply H. now right.
Qed.

(** No member of [Object.prototype] gives a verdict that depends on the
    store: each one always returns true, or never does. *)
Lemma Object_prototype_stable key isV :
  In (key, isV) (Object_prototype conv) -> stable isV.
Proof.
  intros H v st Hc st'. cbn in H.
  repeat (destruct H as [H|H]; [injection H as <- <-|]); try contradiction;
    cbn in Hc |- *; unfold ToPropertyKey, bind in *;
    destruct (is_Object v); cbn in Hc |- *;
    try discriminate; try reflexivity;
    destruct (conv v st) as [[a|e] st1]; discriminate.
Qed.

Lemma shape_get_stable (type : Shape World) key isV :
  shape_stable type -> shape_get conv key type = Some isV -> stable isV.
Proof.
  intros Hs Hg. apply assoc_In, in_app_or in Hg. destruct Hg as [Hin|Hin].
  - exact (Hs key isV Hin).
  - exact (Object_prototype_stable key isV Hin).
Qed.

(** Where neither the shape nor [Object.prototype] has the key, or the
    shape has it itself, [type[key]] is the shape's own entry. *)
Lemma shape_get_own (type : Shape World) key :
  (In key (map fst (Object_prototype conv)) -> In key (map fst type)) ->
  shape_get conv key type = assoc key type.
Proof.
  intros H. unfold shape_get. rewrite assoc_app.
  destruct (assoc key type) as [isV|] eqn:Ha; [reflexivity|].
  destruct (assoc key (Object_prototype conv)) as [isV|] eqn:Hb;
    [|reflexivity].
  exfalso. apply assoc_None in Ha. apply Ha, H.
  apply assoc_In in Hb. exact (in_map fst _ _ Hb).
Qed.

Lemma partial_loop_filter (type : Shape World) keys x st :
  partial_loop chain conv type keys x st =
  partial_loop chain conv type
    (filter (fun key => has_key conv key type) keys) x st.
Proof.
  revert st. induction keys as [|key keys IH]; intros st;
    cbn [partial_loop filter]; [reflexivity|].
  destruct (has_key conv key type) eqn:Hk; [|apply IH].
  cbn [partial_loop]. rewrite Hk.
  destruct (shape_get conv key type) as [isV|]; [|reflexivity].
  unfold bind. destruct (call isV (Get chain x key) st) as [[[|]|e] st1];
    cbn; try reflexivity.
  apply IH.
Qed.

Lemma partial_loop_ext (type : Shape World) keys x x' st :
  (forall key, In key keys -> has_key conv key type = true ->
               Get chain x key = Get chain x' key) ->
  partial_loop chain conv type keys x st =
  partial_loop chain conv type keys x' st.
Proof.
  revert st. induction keys as [|key keys IH]; intros st H;
    cbn [partial_loop]; [reflexivity|].
  assert (IH' : forall st', partial_loop chain conv type keys x st' =
                            partial_loop chain conv type keys x' st').
  { intros st'. apply IH. intros k Hk. apply H. now right. }
  destruct (has_key conv key type) eqn:Hk; [|apply IH'].
  rewrite <- (H key) by (trivial; now left).
  destruct (shape_get conv key type) as [isV|]; [|reflexivity].
  unfold bind. destruct (call isV (Get chain x key) st) as [[[|]|e] st1];
    cbn; try reflexivity.
  apply IH'.
Qed.

Lemma partial_loop_true (type : Shape World) keys x :
  shape_stable type ->
  forall st,
    fst (partial_loop chain conv type keys x st) = Return true <->
    forall key isV,
      In key keys -> shape_get conv key type = Some isV ->
      accepts isV (Get chain x key).
Proof.
  intros Hs. induction keys as [|key keys IH]; intros st; cbn [partial_loop].
  - split; [intros _ k i [] | reflexivity].
  - unfold has_key. destruct (shape_get conv key type) as [isV|] eqn:Ha.
    + rewrite guard_true. split.
      * intros (st1 & Hc & Hrest) k i [<-|Hin] Hk.
        -- assert (i = isV) as -> by congruence.
           apply (shape_get_stable type key isV Hs Ha _ st). now rewrite Hc.
        -- now apply (IH st1).
      * intros H.
        destruct (proj1 (call_true isV (Get chain x key) st)) as [st1 Hc].
        { apply (H key); [now left | exact Ha]. }
        exists st1. split; [exact Hc|]. apply IH. intros k i Hin.
        apply H. now right.
    + rewrite IH. split.
      * intros H k i [<-|Hin] Hk; [congruence | now apply H].
      * intros H k i Hin. apply H. now right.
Qed.

(** The result of the loop over keys that meet no inherited member of
    the shape. *)
Lemma partial_loop_decides (type : Shape World) p keys x :
  shape_decides type p ->
  (forall key,
     In key keys -> In key (map fst (Object_prototype conv)) ->
     In key (map fst type)) ->
  returns (partial_loop chain conv type keys x)
    (forallb (fun key => match assoc key type with
                         | Some _ => p key (Get chain x key)
                         | None => true
                         end) keys).
Proof.
  intros Hp. induction keys as [|key keys IH]; intros Hk;
    cbn [partial_loop forallb].
  - apply returns_ret.
  - assert (IH' := IH (fun k Hin => Hk k (or_intror Hin))).
    unfold has_key. rewrite (shape_get_own type key (Hk key (or_introl eq_refl))).
    destruct (assoc key type) as [isV|] eqn:Ha; [|exact IH'].
    eapply returns_bind; [apply (Hp key isV); now apply assoc_In|].
    destruct (p key (Get chain x key)); cbn; [exact IH' | apply returns_ret].
Qed.

End ObjectOf.

Lemma person_shape_decides :
  shape_decides Samples.person_shape Samples.person_pred.
Proof.
  intros key isV [H|[H|[]]]; injection H as <- <-; intros x st;
    split; try reflexivity;
    cbn; unfold bind, ret; cbn;
    destruct (isUndefined x), (isNumber x); reflexivity.
Qed.

Lemma person_shape_stable : shape_stable Samples.person_shape.
Proof.
  intros key isV Hin.
  exact (decides_stable _ _ (person_shape_decides key isV Hin)).
Qed.



(** C3.  [isPartialOf(s)] returns false on a value that is not an
    object.  On an object [o] it returns true exactly when, for every
    key that a [for..in] loop over [o] visits (the enumerable keys of
    [o] itself, then those it inherits) and that [in] finds in [s],
    [s[key]] accepts [o[key]].  When no key of [o] names a member that
    [s] only inherits from [Object.prototype], these are the keys that
    [o] shares with the entries of [s], and with a shape whose
    inspectors are predicates the result is the conjunction of the
    checks there.  The keys that only [s] has are not looked at, and an
    object without enumerable keys passes for every shape.  Whatever the
    inspectors are, two objects that have the same keys in common with
    [s], with the same values there, get the same outcome. *)
Theorem isPartialOf_key_driven :
  forall World (chain : Kind -> Members) (conv : Value -> M World Value)
         (type : Shape World),
    (forall x st,
       isObject x = false ->
       call (isPartialOf chain conv type) x st = (Return false, st)) /\
    (forall x st,
       shape_stable type ->
       isObject x = true ->
       (fst (call (isPartialOf chain conv type) x st) = Return true <->
        forall key isV,
          In key (for_in chain x) ->
          shape_get conv key type = Some isV ->
          accepts isV (Get chain x key))) /\
    (forall x st,
       shape_stable type ->
       isObject x = true ->
       (forall key,
          In key (for_in chain x) ->
          In key (map fst (Object_prototype conv)) ->
          In key (map fst type)) ->
       (fst (call (isPartialOf chain conv type) x st) = Return true <->
        forall key isV,
          In key (for_in chain x) ->
          assoc key type = Some isV ->
          accepts isV (Get chain x key))) /\
    (forall p x,
       shape_decides type p ->
       isObject x = true ->
       (forall key,
          In key (for_in chain x) ->
          In key (map fst (Object_prototype conv)) ->
          In key (map fst type)) ->
       returns (call (isPartialOf chain conv type) x)
         (forallb (fun key => match assoc key type with
                              | Some _ => p key (Get chain x key)
                              | None => true
                              end)
            (for_in chain x))) /\
    (forall x st,
       isObject x = true ->
       for_in chain x = [] ->
       call (isPartialOf chain conv type) x st = (Return true, st)) /\
    (forall x x' st,
       isObject x = true ->
       isObject x' = true ->
       filter (fun key => has_key conv key type) (for_in chain x) =
       filter (fun key => has_key conv key type) (for_in chain x') ->
       (forall key,
          In key (for_in chain x) -> has_key conv key type = true ->
          Get chain x key = Get chain x' key) ->
       call (isPartialOf chain conv type) x st =
       call (isPartialOf chain conv type) x' st).
Proof.
  intros World chain conv type.
  split; [|split; [|split; [|split; [|split]]]].
  - intros x st Hx. cbn. now rewrite Hx.
  - intros x st Hs Hx. cbn [call isPartialOf]. rewrite Hx. cbn [negb].
    now apply partial_loop_true.
  - intros x st Hs Hx Hk. cbn [call isPartialOf]. rewrite Hx. cbn [negb].
    rewrite (partial_loop_true chain conv type (for_in chain x) x Hs st).
    split; intros H key isV Hin Ha; apply (H key isV Hin).
    + now rewrite (shape_get_own conv type key (Hk key Hin)).
    + now rewrite <- (shape_get_own conv type key (Hk key Hin)).
  - intros p x Hp Hx Hk. cbn [call isPartialOf]. rewrite Hx. cbn [negb].
    now apply partial_loop_decides.
  - intros x st Hx Hk. cbn [call isPartialOf]. rewrite Hx, Hk. reflexivity.
  - intros x x' st Hx Hx' Hkeys Hvals. cbn [call isPartialOf].
    rewrite Hx, Hx'. cbn [negb].
    rewrite (partial_loop_filter chain conv type (for_in chain x)).
    rewrite (partial_loop_filter chain conv type (for_in chain x')).
    rewrite <- Hkeys. apply partial_loop_ext.
    intros key Hin Hk. apply filter_In in Hin. now apply Hvals.
Qed.

Lemma isPartialOf_key_driven_witness :
  fst (call (isPartialOf Samples.host Samples.convert Samples.person_shape)
         Samples.john_email Samples.st0) = Return true /\
  returns (call (isPartialOf Samples.host Samples.convert
                   Samples.person_shape) Samples.aged) false /\
  returns (call (isPartialOf Samples.host Samples.convert
                   Samples.person_shape) Samples.derived) false /\
  call (isPartialOf Samples.host Samples.convert Samples.person_shape)
    Samples.john_email Samples.st0 =
  call (isPartialOf Samples.host Samples.convert Samples.person_shape)
    Samples.john_address Samples.st0.
Proof.
  split; [|split; [|split]].
  - apply (proj1 (proj2 (proj2 (isPartialOf_key_driven nat Samples.host
                                  Samples.convert Samples.person_shape)))
             Samples.john_email Samples.st0 person_shape_stable eq_refl).
    + intros key [<-|[<-|[]]] H; cbn in H; [now left|].
      repeat (destruct H as [H|H]; [discriminate H|]). contradiction.
    + intros key isV [<-|[<-|[]]] H; cbn in H; [|discriminate H].
      injection H as <-. intros st. reflexivity.
  - refine (proj1 (proj2 (proj2 (proj2
              (isPartialOf_key_driven nat Samples.host Samples.convert
                 Samples.person_shape))))
              Samples.person_pred Samples.aged person_shape_decides eq_refl
              _).
    intros key [<-|[]] _. right. now left.
  - refine (proj1 (proj2 (proj2 (proj2
              (isPartialOf_key_driven nat Samples.host Samples.convert
                 Samples.person_shape))))
              Samples.person_pred Samples.derived person_shape_decides
              eq_refl _).
    intros key [<-|[]] _. now left.
  - refine (proj2 (proj2 (proj2 (proj2 (proj2
              (isPartialOf_key_driven nat Samples.host Samples.convert
                 Samples.person_shape)))))
              Samples.john_email Samples.john_address
              Samples.st0 eq_refl eq_refl eq_refl _).
    intros key [<-|[<-|[]]]; intros H; [reflexivity | discriminate H].
Defined.

(** C3 as stated fails at [Object.create({ name: 5 })]: the object
    possesses no key itself, so each key it possesses that is in the
    shape is accepted (there is none), and yet the result is false:
    [for..in] also visits the key [name] that the object inherits, and
    [isString] rejects its value. *)
Lemma isPartialOf_inherited_key :
  isObject Samples.derived = true /\
  for_in_keys Samples.derived = [] /\
  (forall key isV,
     In key (for_in_keys Samples.derived) ->
     assoc key Samples.person_shape = Some isV ->
     accepts isV (Get Samples.host Samples.derived key)) /\
  call (isPartialOf Samples.host Samples.convert Samples.person_shape)
    Samples.derived Samples.st0 = (Return false, Samples.st0).
Proof. repeat split. intros key isV []. Qed.

From Stdlib Require Import Permutation.

(** * Further properties *)

(** ** Negation, union and intersection *)

Section Algebra.

Context {World : Type}.

Lemma Array_some_app {A} (cb : A -> M World bool) l1 l2 st :
  Array_some cb (l1 ++ l2) st =
  (b <- Array_some cb l1 ;; if b then ret true else Array_some cb l2) st.
Proof.
  revert st. induction l1 as [|a l1 IH]; intros st; cbn; [reflexivity|].
  unfold bind. destruct (cb a st) as [[[|]|e] st1]; cbn; try reflexivity.
  rewrite IH. reflexivity.
Qed.

Lemma Array_every_app {A} (cb : A -> M World bool) l1 l2 st :
  Array_every cb (l1 ++ l2) st =
  (b <- Array_every cb l1 ;; if b then Array_every cb l2 else ret false) st.
Proof.
  revert st. induction l1 as [|a l1 IH]; intros st; cbn; [reflexivity|].
  unfold bind. destruct (cb a st) as [[[|]|e] st1]; cbn; try reflexivity.
  rewrite IH. reflexivity.
Qed.

Lemma Array_some_decides (l : list (Inspector World)) ps x :
  Forall2 decides l ps ->
  returns (Array_some (fun isT => call isT x) l)
    (existsb (fun p => p x) ps).
Proof.
  induction 1 as [|isT p l ps Hp _ IH]; cbn; [apply returns_ret|].
  eapply returns_bind; [apply Hp|].
  destruct (p x); cbn; [apply returns_ret | exact IH].
Qed.

Lemma Array_every_decides (l : list (Inspector World)) ps x :
  Forall2 decides l ps ->
  returns (Array_every (fun isT => call isT x) l)
    (forallb (fun p => p x) ps).
Proof.
  induction 1 as [|isT p l ps Hp _ IH]; cbn; [apply returns_ret|].
  eapply returns_bind; [apply Hp|].
  destruct (p x); cbn; [exact IH | apply returns_ret].
Qed.

Lemma predicates_decide (l : list (Inspector World)) :
  Forall predicate l -> exists ps, Forall2 decides l ps.
Proof.
  induction 1 as [|isT l [p Hp] _ [ps IH]].
  - exists []. constructor.
  - exists (p :: ps). now constructor.
Qed.

Lemma decides_accepts (isT : Inspector World) p x (st : Store World) :
  decides isT p -> (p x = true <-> accepts isT x).
Proof.
  intros Hp. split.
  - intros H st'. destruct (Hp x st') as [Hc _]. congruence.
  - intros H. specialize (H st). destruct (Hp x st) as [Hc _]. congruence.
Qed.

End Algebra.

(** X1.  Negating twice gives the inspector back: [isNot(isNot(isT))]
    has the outcome and the effects of [isT] on every value, a throw
    included; and the negation of a predicate is the negated
    predicate. *)
Theorem isNot_involutive :
  forall World (isT : Inspector World) (x : Value) (st : Store World),
    call (isNot (isNot isT)) x st = call isT x st /\
    (forall e st1,
       call isT x st = (Throw e, st1) ->
       call (isNot isT) x st = (Throw e, st1)) /\
    (forall p, decides isT p -> decides (isNot isT) (fun v => negb (p v))).
Proof.
  intros World isT x st. split; [|split].
  - cbn. unfold bind.
    destruct (call isT x st) as [[[|]|e] st1]; reflexivity.
  - intros e st1 H. cbn. unfold bind. now rewrite H.
  - intros p Hp v. cbn. eapply returns_bind; [apply Hp | apply returns_ret].
Qed.

(** X2.  De Morgan: [isNot(isAnyOf(i_1..i_n))] behaves as
    [isAllOf(isNot(i_1)..isNot(i_n))] and [isNot(isAllOf(...))] as
    [isAnyOf(isNot(i_1)..)], for arbitrary inspectors: same outcome, same
    calls made, same final store. *)
Theorem isNot_de_morgan :
  forall World (inspectors : list (Inspector World)) (x : Value)
         (st : Store World),
    call (isNot (isAnyOf inspectors)) x st =
    call (isAllOf (map isNot inspectors)) x st /\
    call (isNot (isAllOf inspectors)) x st =
    call (isAnyOf (map isNot inspectors)) x st.
Proof.
  intros World inspectors x st. split; revert st; cbn;
    induction inspectors as [|isT l IH]; intros st; try reflexivity;
    cbn; unfold bind in *;
    destruct (call isT x st) as [[[|]|e] st1]; cbn; try reflexivity;
    apply IH.
Qed.

(** X3.  Unions and intersections nest: [isAnyOf(a..., b...)] behaves as
    [isAnyOf(isAnyOf(a...), isAnyOf(b...))], and likewise for [isAllOf],
    for arbitrary inspectors. *)
Theorem isAnyOf_isAllOf_nest :
  forall World (l1 l2 : list (Inspector World)) (x : Value)
         (st : Store World),
    call (isAnyOf (l1 ++ l2)) x st =
    call (isAnyOf [isAnyOf l1; isAnyOf l2]) x st /\
    call (isAllOf (l1 ++ l2)) x st =
    call (isAllOf [isAllOf l1; isAllOf l2]) x st.
Proof.
  intros World l1 l2 x st. split; cbn.
  - rewrite Array_some_app. unfold bind.
    destruct (Array_some _ l1 st) as [[[|]|e] st1]; try reflexivity.
    destruct (Array_some _ l2 st1) as [[[|]|e] st2]; reflexivity.
  - rewrite Array_every_app. unfold bind.
    destruct (Array_every _ l1 st) as [[[|]|e] st1]; try reflexivity.
    destruct (Array_every _ l2 st1) as [[[|]|e] st2]; reflexivity.
Qed.

(** X4.  Short circuit: once the inspectors before [isT] have all
    returned false and [isT] returns true, [isAnyOf] returns true from
    the store [isT] left, whatever comes after, which is not called;
    when [isT] throws instead, the union throws.  Dually [isAllOf] stops
    at the first inspector that returns false. *)
Theorem isAnyOf_isAllOf_short_circuit :
  forall World (l1 l2 : list (Inspector World)) (isT : Inspector World)
         (x : Value) (st st1 st2 : Store World),
    (call (isAnyOf l1) x st = (Return false, st1) ->
     (call isT x st1 = (Return true, st2) ->
      call (isAnyOf (l1 ++ isT :: l2)) x st = (Return true, st2)) /\
     (forall e,
        call isT x st1 = (Throw e, st2) ->
        call (isAnyOf (l1 ++ isT :: l2)) x st = (Throw e, st2))) /\
    (call (isAllOf l1) x st = (Return true, st1) ->
     (call isT x st1 = (Return false, st2) ->
      call (isAllOf (l1 ++ isT :: l2)) x st = (Return false, st2)) /\
     (forall e,
        call isT x st1 = (Throw e, st2) ->
        call (isAllOf (l1 ++ isT :: l2)) x st = (Throw e, st2))).
Proof.
  intros World l1 l2 isT x st st1 st2. cbn. split; intros H1.
  - assert (E : Array_some (fun i => call i x) (l1 ++ isT :: l2) st =
                Array_some (fun i => call i x) (isT :: l2) st1)
      by (rewrite Array_some_app; unfold bind; now rewrite H1).
    rewrite E. cbn. unfold bind.
    split; [intros ->|intros e ->]; reflexivity.
  - assert (E : Array_every (fun i => call i x) (l1 ++ isT :: l2) st =
                Array_every (fun i => call i x) (isT :: l2) st1)
      by (rewrite Array_every_app; unfold bind; now rewrite H1).
    rewrite E. cbn. unfold bind.
    split; [intros ->|intros e ->]; reflexivity.
Qed.

(** [isUInt32] throws on a bigint, but it is not reached. *)
Lemma isAnyOf_isAllOf_short_circuit_witness :
  call (isAnyOf [native isNumber; native isBigInt; Samples.uint32])
    (VBigInt 1) Samples.st0 = (Return true, Samples.st0) /\
  call (isAllOf [native isBigInt; native isNumber; Samples.uint32])
    (VBigInt 1) Samples.st0 = (Return false, Samples.st0).
Proof.
  split.
  - exact (proj1 (proj1 (isAnyOf_isAllOf_short_circuit nat
             [native isNumber] [Samples.uint32] (native isBigInt)
             (VBigInt 1) Samples.st0 Samples.st0 Samples.st0)
             eq_refl) eq_refl).
  - exact (proj1 (proj2 (isAnyOf_isAllOf_short_circuit nat
             [native isBigInt] [Samples.uint32] (native isNumber)
             (VBigInt 1) Samples.st0 Samples.st0 Samples.st0)
             eq_refl) eq_refl).
Defined.

Section AlgebraPredicates.

Context {World : Type}.

Lemma existsb_accepts (l : list (Inspector World)) ps x (st : Store World) :
  Forall2 decides l ps ->
  (existsb (fun p => p x) ps = true <->
   exists isT, In isT l /\ accepts isT x).
Proof.
  induction 1 as [|isT p l ps Hp _ IH]; cbn.
  - split; [discriminate | intros (i & [] & _)].
  - rewrite orb_true_iff, IH, (decides_accepts isT p x st Hp). split.
    + intros [H|(i & Hi & Ha)]; eauto.
    + intros (i & [<-|Hi] & Ha); eauto.
Qed.

Lemma forallb_accepts (l : list (Inspector World)) ps x (st : Store World) :
  Forall2 decides l ps ->
  (forallb (fun p => p x) ps = true <->
   forall isT, In isT l -> accepts isT x).
Proof.
  induction 1 as [|isT p l ps Hp _ IH]; cbn.
  - split; [intros _ i [] | reflexivity].
  - rewrite andb_true_iff, IH, (decides_accepts isT p x st Hp). split.
    + intros [H1 H2] i [<-|Hi]; auto.
    + intros H. split; [|intros i Hi]; apply H; auto.
Qed.

Lemma isAnyOf_predicates (l : list (Inspector World)) x st :
  Forall predicate l ->
  exists b,
    fst (call (isAnyOf l) x st) = Return b /\
    world (snd (call (isAnyOf l) x st)) = world st /\
    (b = true <-> exists isT, In isT l /\ accepts isT x).
Proof.
  intros H. destruct (predicates_decide l H) as [ps Hps].
  exists (existsb (fun p => p x) ps).
  destruct (Array_some_decides l ps x Hps st) as [H1 H2].
  repeat split; trivial; now apply (existsb_accepts l ps x st).
Qed.

Lemma isAllOf_predicates (l : list (Inspector World)) x st :
  Forall predicate l ->
  exists b,
    fst (call (isAllOf l) x st) = Return b /\
    world (snd (call (isAllOf l) x st)) = world st /\
    (b = true <-> forall isT, In isT l -> accepts isT x).
Proof.
  intros H. destruct (predicates_decide l H) as [ps Hps].
  exists (forallb (fun p => p x) ps).
  destruct (Array_every_decides l ps x Hps st) as [H1 H2].
  repeat split; trivial; now apply (forallb_accepts l ps x st).
Qed.

Lemma bool_iff (a b : bool) : (a = true <-> b = true) -> a = b.
Proof. destruct a, b; intuition congruence. Qed.

End AlgebraPredicates.

(** X5.  When the inspectors are predicates, [isAnyOf] returns a
    boolean, true exactly when one of them accepts the value, and
    [isAllOf] one that is true exactly when all of them do; neither
    touches the closures' state, and the order of the inspectors does not
    matter for the result. *)
Theorem isAnyOf_isAllOf_predicates :
  forall World (inspectors : list (Inspector World)) (x : Value)
         (st : Store World),
    Forall predicate inspectors ->
    (exists b,
       fst (call (isAnyOf inspectors) x st) = Return b /\
       world (snd (call (isAnyOf inspectors) x st)) = world st /\
       (b = true <-> exists isT, In isT inspectors /\ accepts isT x)) /\
    (exists b,
       fst (call (isAllOf inspectors) x st) = Return b /\
       world (snd (call (isAllOf inspectors) x st)) = world st /\
       (b = true <-> forall isT, In isT inspectors -> accepts isT x)) /\
    (forall inspectors',
       Permutation inspectors inspectors' ->
       fst (call (isAnyOf inspectors') x st) =
       fst (call (isAnyOf inspectors) x st) /\
       fst (call (isAllOf inspectors') x st) =
       fst (call (isAllOf inspectors) x st)).
Proof.
  intros World l x st H. split; [|split].
  - now apply isAnyOf_predicates.
  - now apply isAllOf_predicates.
  - intros l' HP.
    assert (H' : Forall predicate l') by (eapply Permutation_Forall; eauto).
    split.
    + destruct (isAnyOf_predicates l x st H) as (b & Hb & _ & Hi).
      destruct (isAnyOf_predicates l' x st H') as (b' & Hb' & _ & Hi').
      rewrite Hb, Hb'. f_equal. apply bool_iff. rewrite Hi, Hi'.
      split; intros (i & Hin & Ha); exists i; split; trivial.
      * eapply Permutation_in; [symmetry|]; eauto.
      * eapply Permutation_in; eauto.
    + destruct (isAllOf_predicates l x st H) as (b & Hb & _ & Hi).
      destruct (isAllOf_predicates l' x st H') as (b' & Hb' & _ & Hi').
      rewrite Hb, Hb'. f_equal. apply bool_iff. rewrite Hi, Hi'.
      split; intros Ha i Hin; apply Ha.
      * eapply Permutation_in; eauto.
      * eapply Permutation_in; [symmetry|]; eauto.
Qed.

Lemma isAnyOf_isAllOf_predicates_witness :
  Forall (predicate (World := nat)) [native isString; native isNumber] /\
  fst (call (isAnyOf [native isNumber; native isString]) (Samples.num 1)
         Samples.st0) =
  fst (call (isAnyOf [native isString; native isNumber]) (Samples.num 1)
         Samples.st0).
Proof.
  assert (H : Forall (predicate (World := nat))
                [native isString; native isNumber])
    by (repeat constructor; eexists; apply decides_native).
  split; [exact H|].
  exact (proj1 (proj2 (proj2 (isAnyOf_isAllOf_predicates nat
                  [native isString; native isNumber] (Samples.num 1)
                  Samples.st0 H))
                 [native isNumber; native isString]
                 (perm_swap _ _ _))).
Defined.

(** X6.  [isOptional(isT)] returns true on undefined, and
    [isNullable(isT)] on null, without calling [isT]; on every other
    value each behaves as [isT], outcome and effects alike.  Composed,
    they accept both absences. *)
Theorem isOptional_isNullable_spec :
  forall World (isT : Inspector World) (x : Value) (st : Store World),
    call (isOptional isT) VUndefined st = (Return true, st) /\
    call (isNullable isT) VNull st = (Return true, st) /\
    (isUndefined x = false -> call (isOptional isT) x st = call isT x st) /\
    (isNull x = false -> call (isNullable isT) x st = call isT x st) /\
    call (isOptional (isNullable isT)) VUndefined st = (Return true, st) /\
    call (isOptional (isNullable isT)) VNull st = (Return true, st) /\
    call (isNullable (isOptional isT)) VUndefined st = (Return true, st) /\
    call (isNullable (isOptional isT)) VNull st = (Return true, st).
Proof.
  intros World isT x st. repeat split.
  - intros H. cbn. unfold bind, ret. rewrite H.
    destruct (call isT x st) as [[[|]|e] st1]; reflexivity.
  - intros H. cbn. unfold bind, ret. rewrite H.
    destruct (call isT x st) as [[[|]|e] st1]; reflexivity.
Qed.

Lemma strict_equals_NaN_l v : strict_equals (VNumber Number.NaN) v = false.
Proof. destruct v; reflexivity. Qed.

Lemma existsb_strict_equals_NaN vs :
  existsb (strict_equals (VNumber Number.NaN)) vs = false.
Proof.
  induction vs as [|v vs IH]; [reflexivity|].
  cbn [existsb]. now rewrite strict_equals_NaN_l.
Qed.

(** X7.  A union of exact values is a membership test:
    [isAnyOf(isExact(v_1), ..., isExact(v_n))] returns whether the input
    is strictly equal to one of the [v_i], with no effect; NaN is never a
    member, even of a list that holds NaN.  [isStringOf], [isNumberOf]
    and [isBooleanOf] are [isExact]. *)
Theorem isExact_enumeration :
  forall World (vs : list Value) (x : Value) (st : Store World),
    call (isAnyOf (map isExact vs)) x st =
      (Return (existsb (strict_equals x) vs), st) /\
    call (isAnyOf (map isExact vs)) (VNumber Number.NaN) st =
      (Return false, st) /\
    (forall v,
       call (isStringOf v) x st = call (isExact v) x st /\
       call (isNumberOf v) x st = call (isExact v) x st /\
       call (isBooleanOf v) x st = call (isExact v) x st).
Proof.
  intros World vs x st.
  assert (H : forall y,
             call (isAnyOf (map isExact vs)) y st =
             (Return (existsb (strict_equals y) vs), st)).
  { intros y. cbn. induction vs as [|v vs IH]; cbn; [reflexivity|].
    unfold bind, ret. destruct (strict_equals y v); [reflexivity|exact IH]. }
  split; [apply H|split].
  - rewrite H. now rewrite existsb_strict_equals_NaN.
  - intros v. repeat split.
Qed.

(** ** Arrays and sets *)

Section Collections.

Context {World : Type}.

(** [isIterableOf] on an iterable whose elements do not depend on the
    store. *)
Lemma isIterableOf_elements_true (isT : Inspector World) x vs st :
  isIterable x = true ->
  (forall s : Store World, iterate x s = (Return vs, s)) ->
  stable isT ->
  (fst (call (isIterableOf isT) x st) = Return true <->
   is_isNever isT = false /\ forall v, In v vs -> accepts isT v).
Proof.
  intros Hx Hit Hs. cbn [call isIterableOf]. rewrite Hx. cbn [negb].
  destruct isT as [| |body]; cbn [is_isNever is_isAny].
  - split; [intros _; split; [|intros v _ st']|]; reflexivity.
  - split; [discriminate | intros [[=] _]].
  - unfold bind. rewrite Hit.
    rewrite (forOf_all_true (Fn body) vs Hs st). tauto.
Qed.

Lemma isIterableOf_elements_decides (isT : Inspector World) p x vs :
  isIterable x = true ->
  (forall s : Store World, iterate x s = (Return vs, s)) ->
  decides isT p ->
  returns (call (isIterableOf isT) x)
    (negb (is_isNever isT) && forallb p vs).
Proof.
  intros Hx Hit Hp. cbn [call isIterableOf]. rewrite Hx. cbn [negb].
  destruct isT as [| |body]; cbn [is_isNever is_isAny negb andb].
  - intros st. split; [|reflexivity]. cbn. f_equal. symmetry.
    apply forallb_forall. intros v _. now apply (decides_isAny p Hp st).
  - apply returns_ret.
  - intros st. unfold bind. rewrite Hit.
    apply (forOf_all_decides (Fn body) p vs Hp st).
Qed.

Lemma Number_compare_of_Z a b :
  Number.compare (Number.of_Z a) (Number.of_Z b) = Some (a ?= b).
Proof.
  unfold Number.compare. rewrite !NumberFacts.classify_of_Z.
  unfold Number.compare_fin. cbn. now rewrite !Z.mul_1_r.
Qed.

Lemma greater_than_zero_length r (elems : list Value) props :
  greater_than_zero (length_of (VObject r (KArray elems) props)) =
  negb (Nat.eqb (List.length elems) 0).
Proof.
  unfold length_of, greater_than_zero, Number_gt.
  rewrite Number_compare_of_Z. destruct elems; reflexivity.
Qed.

End Collections.

(** X8.  [isArrayOf(isT)] is [isArray] followed by [isIterableOf(isT)],
    and [isSetOf(isT)] is [isSet] followed by it: each rejects the other
    collection and every string, iterable as they are, without calling
    [isT]; on its own collection it returns true exactly when [isT] is
    not literally [isNever] and accepts every element. *)
Theorem isArrayOf_isSetOf_spec :
  forall World (isT : Inspector World) (x : Value) (st : Store World),
    call (isArrayOf isT) x st =
      call (isAllOf [native isArray; isIterableOf isT]) x st /\
    call (isSetOf isT) x st =
      call (isAllOf [native isSet; isIterableOf isT]) x st /\
    (isArray x = false -> call (isArrayOf isT) x st = (Return false, st)) /\
    (isSet x = false -> call (isSetOf isT) x st = (Return false, st)) /\
    (forall r elems props,
       stable isT ->
       (fst (call (isArrayOf isT) (VObject r (KArray elems) props) st) =
          Return true <->
        is_isNever isT = false /\ forall v, In v elems -> accepts isT v) /\
       (fst (call (isSetOf isT) (VObject r (KSet elems) props) st) =
          Return true <->
        is_isNever isT = false /\ forall v, In v elems -> accepts isT v)) /\
    (forall p r elems props,
       decides isT p ->
       returns (call (isArrayOf isT) (VObject r (KArray elems) props))
         (negb (is_isNever isT) && forallb p elems) /\
       returns (call (isSetOf isT) (VObject r (KSet elems) props))
         (negb (is_isNever isT) && forallb p elems)).
Proof.
  intros World isT x st. split; [|split; [|split; [|split; [|split]]]].
  - cbn. unfold bind, ret. destruct (isArray x); [|reflexivity].
    destruct (_ st) as [[[|]|e] st1]; reflexivity.
  - cbn. unfold bind, ret. destruct (isSet x); [|reflexivity].
    destruct (_ st) as [[[|]|e] st1]; reflexivity.
  - intros H. cbn. now rewrite H.
  - intros H. cbn. now rewrite H.
  - intros r elems props Hs. split.
    + now apply (isIterableOf_elements_true isT _ elems).
    + now apply (isIterableOf_elements_true isT _ elems).
  - intros p r elems props Hp. split.
    + now apply (isIterableOf_elements_decides isT p _ elems).
    + now apply (isIterableOf_elements_decides isT p _ elems).
Qed.

(** X9.  [isNonEmptyArrayOf(isT)] returns false on every value that is
    not an array and on the empty array, whatever [isT] is; it returns
    true exactly on the arrays with a first element whose elements [isT]
    all accepts; with [isAny] it is [isNonEmptyArray]; and here the
    [isNever] sentinel makes no difference: it behaves as any inspector
    that always returns false. *)
Theorem isNonEmptyArrayOf_spec :
  forall World (isT : Inspector World) (x : Value) (st : Store World),
    (isArray x = false ->
     call (isNonEmptyArrayOf isT) x st = (Return false, st)) /\
    (forall r props,
       fst (call (isNonEmptyArrayOf isT) (VObject r (KArray []) props) st) =
       Return false) /\
    (stable isT ->
     (fst (call (isNonEmptyArrayOf isT) x st) = Return true <->
      exists r v vs props,
        x = VObject r (KArray (v :: vs)) props /\
        is_isNever isT = false /\
        forall w, In w (v :: vs) -> accepts isT w)) /\
    (forall p r elems props,
       decides isT p ->
       returns (call (isNonEmptyArrayOf isT) (VObject r (KArray elems) props))
         (negb (is_isNever isT) && forallb p elems &&
          negb (Nat.eqb (List.length elems) 0))) /\
    call (isNonEmptyArrayOf isAny) x st = (Return (isNonEmptyArray x), st) /\
    call (isNonEmptyArrayOf isNever) x st =
    call (isNonEmptyArrayOf (native (fun _ => false))) x st.
Proof.
  intros World isT x st.
  split; [|split; [|split; [|split; [|split]]]].
  - intros H. cbn. now rewrite H.
  - intros r props. destruct isT; reflexivity.
  - intros Hs. split.
    + destruct x as [| | | | | | |r k props]; try discriminate.
      destruct k; try discriminate.
      change (call (isNonEmptyArrayOf isT) (VObject r (KArray elems) props) st)
        with ((b <- call (isArrayOf isT) (VObject r (KArray elems) props) ;;
               if b then ret (greater_than_zero
                                (length_of (VObject r (KArray elems) props)))
               else ret false) st).
      rewrite and_true. intros (st1 & Hc & Hlen).
      apply (f_equal fst) in Hc. cbn [fst] in Hc.
      apply (isIterableOf_elements_true isT _ elems) in Hc;
        [|reflexivity|reflexivity|exact Hs].
      rewrite greater_than_zero_length in Hlen.
      destruct elems as [|v vs]; [discriminate|].
      exists r, v, vs, props. tauto.
    + intros (r & v & vs & props & -> & Hn & Ha).
      change (call (isNonEmptyArrayOf isT) (VObject r (KArray (v :: vs)) props)
                st)
        with ((b <- call (isArrayOf isT) (VObject r (KArray (v :: vs)) props) ;;
               if b then ret (greater_than_zero
                                (length_of
                                   (VObject r (KArray (v :: vs)) props)))
               else ret false) st).
      rewrite and_true.
      destruct (proj1 (call_true (isArrayOf isT)
                         (VObject r (KArray (v :: vs)) props) st))
        as [st1 Hc].
      { apply (isIterableOf_elements_true isT _ (v :: vs));
          [reflexivity|reflexivity|exact Hs|tauto]. }
      exists st1. split; [exact Hc | reflexivity].
  - intros p r elems props Hp.
    eapply returns_bind;
      [apply (isIterableOf_elements_decides isT p _ elems);
       [reflexivity|reflexivity|exact Hp]|].
    rewrite greater_than_zero_length.
    destruct (negb (is_isNever isT) && forallb p elems); apply returns_ret.
  - destruct x as [| | | | | | |r k props]; try reflexivity.
    destruct k; reflexivity.
  - destruct x as [| | | | | | |r k props]; try reflexivity.
    destruct k; try reflexivity.
    destruct elems; reflexivity.
Qed.

(** X10.  Only the literal sentinel triggers the override of
    [isIterableOf].  [is(() => isT)] behaves as [isT] on every value, yet
    [isIterableOf(is(f))] returns true on an empty array without calling
    [f] at all, where [isIterableOf(isNever)] returns false; on an
    array with an element the wrapped sentinel and the sentinel agree
    again.  The same holds of [isAnyOf()], which rejects everything. *)
Theorem sentinel_by_reference_only :
  forall World (isT : Inspector World) (lazy : M World (Inspector World))
         (x : Value) (st : Store World),
    call (is' (ret isT)) x st = call isT x st /\
    (forall r props,
       call (isIterableOf (is' lazy)) (VObject r (KArray []) props) st =
         (Return true, st) /\
       call (isIterableOf (isAnyOf [])) (VObject r (KArray []) props) st =
         (Return true, st) /\
       call (isIterableOf isNever) (VObject r (KArray []) props) st =
         (Return false, st)) /\
    (forall r v vs props,
       call (isIterableOf (is' (ret isNever)))
         (VObject r (KArray (v :: vs)) props) st =
       call (isIterableOf isNever) (VObject r (KArray (v :: vs)) props) st /\
       call (isIterableOf (isAnyOf []))
         (VObject r (KArray (v :: vs)) props) st =
       call (isIterableOf isNever) (VObject r (KArray (v :: vs)) props) st).
Proof.
  intros World isT lazy x st. split; [|split].
  - cbn. unfold bind, ret. destruct (call isT x st) as [[b|e] st1];
      reflexivity.
  - intros r props. repeat split.
  - intros r v vs props. split; reflexivity.
Qed.

(** ** Tuples beyond the end of the array *)

Lemma assoc_indexed_outside (vs : list Value) :
  forall s k,
    (k < s \/ s + List.length vs <= k)%nat ->
    assoc (index_key k) (combine (map index_key (seq s (List.length vs))) vs) =
    None.
Proof.
  induction vs as [|v vs IH]; intros s k Hk; [reflexivity|].
  cbn -[index_key]. cbn in Hk.
  destruct (String.eqb_spec (index_key k) (index_key s)) as [E|_].
  - apply index_key_inj in E. lia.
  - apply IH. lia.
Qed.

Lemma get_prop_array_beyond r elems k :
  (List.length elems <= k)%nat ->
  get_prop (VObject r (KArray elems) []) (index_key k) = VUndefined.
Proof.
  intros Hk. unfold get_prop, own_props, indexed. rewrite app_nil_r.
  rewrite (assoc_indexed_outside elems 0 k); [reflexivity | lia].
Qed.

Lemma get_prop_array_nth r elems k :
  get_prop (VObject r (KArray elems) []) (index_key k) =
  nth k elems VUndefined.
Proof.
  destruct (Nat.lt_ge_cases k (List.length elems)) as [H|H].
  - now apply get_prop_array_index.
  - rewrite get_prop_array_beyond by exact H.
    symmetry. now apply nth_overflow.
Qed.

Section TupleBounds.

Context {World : Type}.

Lemma tuple_loop_app (l1 l2 : list (Inspector World)) x :
  forall i st,
    tuple_loop (l1 ++ l2) i x st =
    (b <- tuple_loop l1 i x ;;
     if b then tuple_loop l2 (i + List.length l1) x else ret false) st.
Proof.
  induction l1 as [|isT l1 IH]; intros i st; cbn -[index_key].
  - rewrite Nat.add_0_r. unfold bind, ret. reflexivity.
  - unfold bind.
    destruct (call isT (get_prop x (index_key i)) st) as [[[|]|e] st1];
      cbn; try reflexivity.
    rewrite IH. unfold bind. now rewrite Nat.add_succ_r.
Qed.

(** A tuple inspector whose members are predicates is a predicate. *)
Lemma isTupleOf_decides (inspectors : list (Inspector World)) ps :
  Forall2 decides inspectors ps ->
  decides (isTupleOf inspectors)
    (fun x =>
       isArray x &&
       forallb (fun kp => snd kp (get_prop x (index_key (fst kp))))
         (combine (seq 0 (List.length ps)) ps)).
Proof.
  intros H x. cbn [call isTupleOf].
  destruct (isArray x); cbn [negb andb]; [|apply returns_ret].
  now apply tuple_loop_decides.
Qed.

End TupleBounds.

(** X11.  An index past the end of the array reads as undefined, and
    that is what the inspector at that index is given: with predicates
    the result of [isTupleOf] on an array of any length is the
    conjunction of the [i_k(a[k-1])], the missing elements being
    undefined.  So [isTupleOf()] accepts every array, and a trailing
    [isOptional(isT)] may be left out of the array: then [isT] itself is
    not called. *)
Theorem isTupleOf_missing_elements :
  forall World (inspectors : list (Inspector World)),
    (forall ps r elems,
       Forall2 decides inspectors ps ->
       returns (call (isTupleOf inspectors) (VObject r (KArray elems) []))
         (tuple_conj ps elems)) /\
    (forall r elems props (st : Store World),
       call (isTupleOf []) (VObject r (KArray elems) props) st =
       (Return true, st)) /\
    (forall (isT : Inspector World) r elems st,
       List.length elems = List.length inspectors ->
       call (isTupleOf (inspectors ++ [isOptional isT]))
         (VObject r (KArray elems) []) st =
       call (isTupleOf inspectors) (VObject r (KArray elems) []) st).
Proof.
  intros World inspectors. split; [|split].
  - intros ps r elems Hps.
    cbn [call isTupleOf isArray instanceof negb].
    replace (tuple_conj ps elems) with
      (forallb (fun kp => snd kp (get_prop (VObject r (KArray elems) [])
                                    (index_key (fst kp))))
         (combine (seq 0 (List.length ps)) ps));
      [now apply tuple_loop_decides|].
    rewrite (forallb_combine_seq
               (fun k p => p (get_prop (VObject r (KArray elems) [])
                                (index_key k))) (fun _ => true)).
    unfold tuple_conj. apply forallb_ext_in. intros k _.
    now rewrite Nat.sub_0_r, get_prop_array_nth.
  - reflexivity.
  - intros isT r elems st Hlen.
    cbn [call isTupleOf isArray instanceof negb].
    rewrite tuple_loop_app. unfold bind.
    destruct (tuple_loop inspectors 0 _ st) as [[[|]|e] st1];
      try reflexivity.
    cbn -[index_key]. rewrite get_prop_array_beyond by lia. reflexivity.
Qed.

Lemma isTupleOf_missing_elements_witness :
  returns (World := nat)
    (call (isTupleOf [native isNumber; isOptional (native isString)])
       (Samples.array 1 [Samples.num 10]))
    true /\
  returns (World := nat)
    (call (isTupleOf [native isNumber; native isNumber])
       (Samples.array 1 [Samples.num 10]))
    false.
Proof.
  split.
  - refine (proj1 (isTupleOf_missing_elements nat
              [native isNumber; isOptional (native isString)])
              [isNumber; fun v => isUndefined v || isString v] 1%nat
              [Samples.num 10] _).
    constructor; [apply decides_native|].
    constructor; [|constructor].
    intros x st. cbn. unfold bind, ret. cbn.
    destruct (isUndefined x), (isString x); split; reflexivity.
  - refine (proj1 (isTupleOf_missing_elements nat
              [native isNumber; native isNumber])
              [isNumber; isNumber] 1%nat [Samples.num 10] _).
    repeat constructor; apply decides_native.
Defined.

(** ** Shapes *)

Lemma In_assoc_NoDup {A} key (v : A) l :
  NoDup (map fst l) -> In (key, v) l -> assoc key l = Some v.
Proof.
  induction l as [|[k w] l IH]; cbn; [intros _ []|].
  intros Hnd [[= -> ->]|Hin].
  - now rewrite String.eqb_refl.
  - inversion Hnd as [|? ? Hk Hnd']; subst.
    destruct (String.eqb_spec key k) as [->|_].
    + exfalso. apply Hk. now apply (in_map fst _ (k, v)).
    + now apply IH.
Qed.

Section Shapes.

Context {World : Type}.
Variable chain : Kind -> Members.

Lemma object_loop_app (t1 t2 : Shape World) x st :
  object_loop chain (t1 ++ t2) x st =
  (b <- object_loop chain t1 x ;;
   if b then object_loop chain t2 x else ret false) st.
Proof.
  revert st. induction t1 as [|[key isV] t1 IH]; intros st; cbn.
  - reflexivity.
  - unfold bind.
    destruct (call isV (Get chain x key) st) as [[[|]|e] st1]; cbn;
      try reflexivity.
    rewrite IH. reflexivity.
Qed.

End Shapes.

(** X12.  Take an object none of whose keys names a member that the
    shape only inherits from [Object.prototype].  Then [isObjectOf] is
    the stronger check: when it accepts the object, [isPartialOf] with
    the same shape accepts it too; and when the object has every key of
    the shape, the two agree. *)
Theorem isObjectOf_implies_isPartialOf :
  forall World (chain : Kind -> Members) (conv : Value -> M World Value)
         (type : Shape World) (x : Value) (st : Store World),
    shape_stable type ->
    isObject x = true ->
    (forall key,
       In key (for_in chain x) ->
       In key (map fst (Object_prototype conv)) ->
       In key (map fst type)) ->
    (fst (call (isObjectOf chain type) x st) = Return true ->
     fst (call (isPartialOf chain conv type) x st) = Return true) /\
    (NoDup (map fst type) ->
     (forall key, In key (map fst type) -> In key (for_in chain x)) ->
     fst (call (isPartialOf chain conv type) x st) = Return true ->
     fst (call (isObjectOf chain type) x st) = Return true).
Proof.
  intros World chain conv type x st Hs Hx Hkeys.
  cbn [call isObjectOf isPartialOf]. rewrite Hx. cbn [negb].
  rewrite (object_loop_true chain type x Hs st).
  rewrite (partial_loop_true chain conv type (for_in chain x) x Hs st).
  split.
  - intros H key isV Hin Hg.
    rewrite (shape_get_own conv type key (Hkeys key Hin)) in Hg.
    apply H. now apply assoc_In.
  - intros Hnd Hall H key isV Hin. apply H.
    + apply Hall. now apply (in_map fst _ (key, isV)).
    + unfold shape_get. rewrite assoc_app.
      now rewrite (In_assoc_NoDup key isV type Hnd Hin).
Qed.

Lemma isObjectOf_implies_isPartialOf_witness :
  fst (call (isPartialOf Samples.host Samples.convert Samples.person_shape)
         Samples.john Samples.st0) = Return true.
Proof.
  refine (proj1 (isObjectOf_implies_isPartialOf nat Samples.host
                   Samples.convert Samples.person_shape Samples.john
                   Samples.st0 person_shape_stable eq_refl _) eq_refl).
  intros key [<-|[]] _. now left.
Defined.

(** X13.  [isObjectOf] goes through the entries of the shape in order
    and stops at the first that fails: a shape whose entries are those
    of [t1] followed by those of [t2] behaves as
    [isAllOf(isObjectOf(t1), isObjectOf(t2))], for arbitrary
    inspectors. *)
Theorem isObjectOf_concat :
  forall World (chain : Kind -> Members) (t1 t2 : Shape World) (x : Value)
         (st : Store World),
    call (isObjectOf chain (t1 ++ t2)) x st =
    call (isAllOf [isObjectOf chain t1; isObjectOf chain t2]) x st.
Proof.
  intros World chain t1 t2 x st. cbn.
  destruct (isObject x); cbn; [|reflexivity].
  rewrite object_loop_app. unfold bind.
  destruct (object_loop chain t1 x st) as [[[|]|e] st1]; try reflexivity.
  destruct (object_loop chain t2 x st1) as [[[|]|e] st2]; reflexivity.
Qed.

Section InheritedMembers.

Context {World : Type}.
Variable chain : Kind -> Members.
Variable conv : Value -> M World Value.

Lemma partial_loop_app (type : Shape World) keys1 keys2 x st :
  partial_loop chain conv type (keys1 ++ keys2) x st =
  (b <- partial_loop chain conv type keys1 x ;;
   if b then partial_loop chain conv type keys2 x else ret false) st.
Proof.
  revert st. induction keys1 as [|key keys1 IH]; intros st.
  - reflexivity.
  - rewrite <- app_comm_cons. cbn [partial_loop].
    destruct (has_key conv key type); [|apply IH].
    destruct (shape_get conv key type) as [isV|].
    + unfold bind.
      destruct (call isV (Get chain x key) st) as [[[|]|e] st1]; cbn;
        try reflexivity.
      rewrite IH. reflexivity.
    + reflexivity.
Qed.

(** The loop at a key that only [Object.prototype] has for the shape:
    the member found there is what is called. *)
Lemma partial_loop_inherited (type : Shape World) key member keys x st :
  ~ In key (map fst type) ->
  assoc key (Object_prototype conv) = Some member ->
  partial_loop chain conv type (key :: keys) x st =
  (b <- call member (Get chain x key) ;;
   if negb b then ret false else partial_loop chain conv type keys x) st.
Proof.
  intros Hk Hm. cbn [partial_loop]. unfold has_key, shape_get.
  rewrite assoc_app. apply assoc_None in Hk. now rewrite Hk, Hm.
Qed.

Lemma isPartialOf_at_inherited (type : Shape World) key member keys1 keys2
  x st st1 :
  isObject x = true ->
  for_in chain x = keys1 ++ key :: keys2 ->
  partial_loop chain conv type keys1 x st = (Return true, st1) ->
  ~ In key (map fst type) ->
  assoc key (Object_prototype conv) = Some member ->
  call (isPartialOf chain conv type) x st =
  (b <- call member (Get chain x key) ;;
   if negb b then ret false else partial_loop chain conv type keys2 x) st1.
Proof.
  intros Hx Hfor Hloop Hk Hm.
  cbn [call isPartialOf]. rewrite Hx, Hfor. cbn [negb].
  rewrite partial_loop_app. unfold bind at 1. rewrite Hloop.
  now apply partial_loop_inherited.
Qed.

End InheritedMembers.

(** X22.  [isPartialOf] looks a key of the object up in the shape with
    [in], which also finds what the shape inherits from
    [Object.prototype], and calls what it finds.  Take an object with a
    key that the shape does not have itself, reached after the keys
    before it have passed.  If the key is [isPrototypeOf] and its value a
    primitive, the result is false; if it is [valueOf],
    [toLocaleString], [__proto__] or one of the four legacy accessor
    methods, or [hasOwnProperty] or [propertyIsEnumerable] with a
    primitive value, the call throws a TypeError. *)
Theorem isPartialOf_inherited_members :
  forall World (chain : Kind -> Members) (conv : Value -> M World Value)
         (type : Shape World) (x : Value) (keys1 keys2 : list string)
         (key : string) (st st1 : Store World),
    isObject x = true ->
    for_in chain x = keys1 ++ key :: keys2 ->
    partial_loop chain conv type keys1 x st = (Return true, st1) ->
    ~ In key (map fst type) ->
    (key = "isPrototypeOf"%string ->
     is_Object (Get chain x key) = false ->
     call (isPartialOf chain conv type) x st = (Return false, st1)) /\
    (In key ["valueOf"; "toLocaleString"; "__proto__"; "__defineGetter__";
             "__defineSetter__"; "__lookupGetter__";
             "__lookupSetter__"]%string \/
     In key ["hasOwnProperty"; "propertyIsEnumerable"]%string /\
     is_Object (Get chain x key) = false ->
     call (isPartialOf chain conv type) x st =
     (Throw (VObject (next_ref st1) (KInstance "TypeError") []),
      mkStore (S (next_ref st1)) (world st1))).
Proof.
  intros World chain conv type x keys1 keys2 key st st1 Hx Hfor Hloop Hk.
  assert (E := fun member =>
            isPartialOf_at_inherited chain conv type key member keys1 keys2
              x st st1 Hx Hfor Hloop Hk).
  split.
  - intros -> Hprim. rewrite (E _ eq_refl).
    cbn [call]. unfold bind. now rewrite Hprim.
  - intros [H|[H Hprim]].
    + repeat (destruct H as [<-|H];
        [rewrite (E _ eq_refl); reflexivity|]).
      contradiction.
    + repeat (destruct H as [<-|H];
        [rewrite (E _ eq_refl); cbn [call];
         unfold bind, ToPropertyKey; rewrite Hprim; reflexivity|]).
      contradiction.
Qed.

Lemma isPartialOf_inherited_members_witness :
  call (isPartialOf Samples.host Samples.convert Samples.person_shape)
    Samples.john Samples.st0 = (Return true, Samples.st0) /\
  call (isPartialOf Samples.host Samples.convert Samples.person_shape)
    Samples.john_isPrototypeOf Samples.st0 = (Return false, Samples.st0) /\
  call (isPartialOf Samples.host Samples.convert Samples.person_shape)
    Samples.john_hasOwnProperty Samples.st0 =
    (Throw (VObject 0 (KInstance "TypeError") []), mkStore 1%nat 0%nat).
Proof.
  split; [reflexivity|split].
  - refine (proj1 (isPartialOf_inherited_members nat Samples.host
                     Samples.convert Samples.person_shape
                     Samples.john_isPrototypeOf ["name"%string] []
                     "isPrototypeOf"%string Samples.st0 Samples.st0
                     eq_refl eq_refl eq_refl _) eq_refl eq_refl).
    intros [H|[H|[]]]; discriminate H.
  - refine (proj2 (isPartialOf_inherited_members nat Samples.host
                     Samples.convert Samples.person_shape
                     Samples.john_hasOwnProperty ["name"%string] []
                     "hasOwnProperty"%string Samples.st0 Samples.st0
                     eq_refl eq_refl eq_refl _) _).
    + intros [H|[H|[]]]; discriminate H.
    + right. split; [now left | reflexivity].
Defined.

(** ** Maps and records as collections of pairs *)

Section Pairs.

Context {World : Type}.

Lemma forallb_pairs {A B} (f : A -> bool) (g : B -> bool) (l : list (A * B)) :
  forallb f (map fst l) && forallb g (map snd l) =
  forallb (fun kv => f (fst kv) && g (snd kv)) l.
Proof.
  induction l as [|[a b] l IH]; cbn; [reflexivity|].
  rewrite <- IH. destruct (f a), (g b); cbn; try reflexivity;
    try now rewrite andb_false_r.
Qed.

Lemma pair_pred_entry pK pV r k v :
  pair_pred pK pV (VObject r (KArray [k; v]) []) = pK k && pV v.
Proof. cbn. now rewrite andb_true_r. Qed.

Lemma forallb_entry_arrays pK pV (vs : list Value) entries :
  Forall2 (fun v kv => exists r, v = VObject r (KArray [fst kv; snd kv]) [])
    vs entries ->
  forallb (pair_pred pK pV) vs =
  forallb (fun kv => pK (fst kv) && pV (snd kv)) entries.
Proof.
  induction 1 as [|v [k w] vs entries [r ->] _ IH]; [reflexivity|].
  cbn [forallb fst snd]. now rewrite pair_pred_entry, IH.
Qed.

Lemma isIterableOf_pairs_on_map (isK isV : Inspector World) pK pV r entries
  props st :
  decides isK pK -> decides isV pV ->
  fst (call (isIterableOf (isTupleOf [isK; isV]))
         (VObject r (KMap entries) props) st) =
    Return (forallb (fun kv => pK (fst kv) && pV (snd kv)) entries) /\
  world (snd (call (isIterableOf (isTupleOf [isK; isV]))
                (VObject r (KMap entries) props) st)) = world st.
Proof.
  intros HK HV.
  assert (Hp : decides (isTupleOf [isK; isV]) (pair_pred pK pV)).
  { apply (isTupleOf_decides [isK; isV] [pK; pV]).
    constructor; [exact HK|]. constructor; [exact HV|constructor]. }
  change (call (isIterableOf (isTupleOf [isK; isV]))
            (VObject r (KMap entries) props) st)
    with ((vs <- entry_arrays entries ;;
           forOf_all (isTupleOf [isK; isV]) vs) st).
  unfold bind.
  destruct (entry_arrays_ok entries st) as (vs & H1 & H2 & H3).
  destruct (entry_arrays entries st) as [[vs'|e] st1]; cbn in H1, H2;
    [|discriminate].
  injection H1 as ->.
  destruct (forOf_all_decides (isTupleOf [isK; isV]) _ vs Hp st1) as [H4 H5].
  rewrite <- (forallb_entry_arrays pK pV vs entries H3). split; congruence.
Qed.

End Pairs.

(** X14.  Iterating a Map yields its [key, value] pairs, so
    [isIterableOf(isTupleOf(isK, isV))] checks a Map entry by entry.  With
    predicates that is the same result as [isMapOf(isK, isV)], which
    checks all keys and then all values, unless [isK] or [isV] is
    literally [isNever]: then [isMapOf] fails on the empty Map and the
    pairwise check passes. *)
Theorem isMapOf_pairwise :
  forall World (isK isV : Inspector World) (pK pV : Value -> bool)
         r entries props (st : Store World),
    decides isK pK ->
    decides isV pV ->
    fst (call (isIterableOf (isTupleOf [isK; isV]))
           (VObject r (KMap entries) props) st) =
      Return (forallb (fun kv => pK (fst kv) && pV (snd kv)) entries) /\
    (is_isNever isK = false ->
     is_isNever isV = false ->
     fst (call (isMapOf isK isV) (VObject r (KMap entries) props) st) =
     fst (call (isIterableOf (isTupleOf [isK; isV]))
            (VObject r (KMap entries) props) st)) /\
    fst (call (isIterableOf (isTupleOf [isNever; isV]))
           (VObject r (KMap []) props) st) = Return true /\
    fst (call (isMapOf isNever isV) (VObject r (KMap []) props) st) =
      Return false.
Proof.
  intros World isK isV pK pV r entries props st HK HV.
  destruct (isIterableOf_pairs_on_map isK isV pK pV r entries props st HK HV)
    as [Hp _].
  split; [exact Hp|split; [|split]].
  - intros HnK HnV. rewrite Hp.
    destruct (isMapOf_returns isK isV pK pV r entries props HK HV st)
      as [Hm _].
    rewrite Hm, HnK, HnV. cbn [negb andb]. f_equal. apply forallb_pairs.
  - reflexivity.
  - reflexivity.
Qed.

Lemma isMapOf_pairwise_witness :
  fst (call (isIterableOf (isTupleOf [native isString; native isNumber]))
         (VObject 1 (KMap [(Samples.str "a", Samples.num 1)]) [])
         Samples.st0) = Return true.
Proof.
  exact (proj1 (isMapOf_pairwise nat (native isString) (native isNumber)
                  isString isNumber 1%nat
                  [(Samples.str "a", Samples.num 1)] [] Samples.st0
                  (decides_native _) (decides_native _))).
Defined.

Lemma forallb_map_comp {A B} (f : A -> B) (g : B -> bool) l :
  forallb g (map f l) = forallb (fun a => g (f a)) l.
Proof. induction l as [|a l IH]; cbn; [reflexivity | now rewrite IH]. Qed.

Section Records.

Context {World : Type}.

Lemma isRecordOf_on_record (isK isV : Inspector World) r props st :
  call (isRecordOf isK isV) (VObject r KPlain props) st =
  (es <- entry_arrays
           (map (fun key => (VString key,
                             get_prop (VObject r KPlain props) key))
              (for_in_keys (VObject r KPlain props))) ;;
   _ <- fresh ;;
   forOf_all (isTupleOf [isK; isV]) es) st.
Proof.
  cbn [call isRecordOf isRecord isStruct isObject strict_equals typeof
         TypeTag_eqb negb andb getPrototypeOf existsb Prototype_eqb orb].
  unfold Object_entries, bind.
  destruct (entry_arrays _ st) as [[es|e] st1]; reflexivity.
Qed.

Lemma isRecordOf_decides (isK isV : Inspector World) pK pV r props st :
  decides isK pK -> decides isV pV ->
  fst (call (isRecordOf isK isV) (VObject r KPlain props) st) =
    Return (forallb
              (fun key => pK (VString key) &&
                          pV (get_prop (VObject r KPlain props) key))
              (for_in_keys (VObject r KPlain props))) /\
  world (snd (call (isRecordOf isK isV) (VObject r KPlain props) st)) =
    world st.
Proof.
  intros HK HV.
  assert (Hp : decides (isTupleOf [isK; isV]) (pair_pred pK pV)).
  { apply (isTupleOf_decides [isK; isV] [pK; pV]).
    constructor; [exact HK|]. constructor; [exact HV|constructor]. }
  rewrite isRecordOf_on_record. unfold bind.
  destruct (entry_arrays_ok
              (map (fun key => (VString key,
                                get_prop (VObject r KPlain props) key))
                 (for_in_keys (VObject r KPlain props))) st)
    as (vs & H1 & H2 & H3).
  destruct (entry_arrays _ st) as [[vs'|e] st1]; cbn in H1, H2;
    [|discriminate].
  injection H1 as ->. cbn [fresh].
  destruct (forOf_all_decides (isTupleOf [isK; isV]) _ vs Hp
              (mkStore (S (next_ref st1)) (world st1))) as [H4 H5].
  rewrite H4, H5, (forallb_entry_arrays pK pV vs _ H3), forallb_map_comp.
  split; [reflexivity | exact H2].
Qed.

End Records.

(** X15.  [isRecordOf(isK, isV)] returns false on everything that is not
    a plain object, arrays and Maps included.  On a plain object it
    checks each entry as a [key, value] pair, the key being handed to
    [isK] as a string: so an [isK] that accepts no string rejects every
    record that has a key.  The pair inspector it builds is never one of
    the sentinels, so the empty object passes for every [isK] and [isV],
    [isNever] too, unlike the empty Map with [isMapOf]. *)
Theorem isRecordOf_spec :
  forall World (isK isV : Inspector World) (x : Value) (st : Store World),
    (isRecord x = false ->
     call (isRecordOf isK isV) x st = (Return false, st)) /\
    (forall r k props,
       k <> KPlain -> isRecord (VObject r k props) = false) /\
    (forall r,
       fst (call (isRecordOf isK isV) (VObject r KPlain []) st) =
       Return true) /\
    (forall pK pV r props,
       decides isK pK ->
       decides isV pV ->
       fst (call (isRecordOf isK isV) (VObject r KPlain props) st) =
         Return (forallb
                   (fun key => pK (VString key) &&
                               pV (get_prop (VObject r KPlain props) key))
                   (for_in_keys (VObject r KPlain props))) /\
       world (snd (call (isRecordOf isK isV) (VObject r KPlain props) st)) =
         world st /\
       ((forall s, pK (VString s) = false) ->
        for_in_keys (VObject r KPlain props) <> [] ->
        fst (call (isRecordOf isK isV) (VObject r KPlain props) st) =
          Return false)).
Proof.
  intros World isK isV x st. split; [|split; [|split]].
  - intros H. cbn. now rewrite H.
  - intros r k props Hk. destruct k; try reflexivity. congruence.
  - intros r. reflexivity.
  - intros pK pV r props HK HV.
    destruct (isRecordOf_decides isK isV pK pV r props st HK HV) as [H1 H2].
    split; [exact H1|split; [exact H2|]].
    intros Hs Hne. rewrite H1. f_equal.
    destruct (for_in_keys (VObject r KPlain props)) as [|key keys];
      [congruence|].
    cbn. now rewrite Hs.
Qed.

Lemma isRecordOf_spec_witness :
  fst (call (isRecordOf (native isString) (native isString)) Samples.john
         Samples.st0) = Return true /\
  fst (call (isRecordOf (native isNumber) (native isString)) Samples.john
         Samples.st0) = Return false.
Proof.
  split.
  - exact (proj1 (proj2 (proj2 (proj2
             (isRecordOf_spec nat (native isString) (native isString)
                Samples.john Samples.st0)))
             isString isString 1%nat _
             (decides_native _) (decides_native _))).
  - refine (proj2 (proj2 (proj2 (proj2 (proj2
              (isRecordOf_spec nat (native isNumber) (native isString)
                 Samples.john Samples.st0)))
              isNumber isString 1%nat _
              (decides_native _) (decides_native _))) _ _).
    + reflexivity.
    + discriminate.
Defined.

(** ** Ranges of numbers *)

Module OrderFacts.
Import Number.

Lemma compare_fin_scale m1 e1 m2 e2 E :
  E <= e1 -> E <= e2 ->
  compare_fin m1 e1 m2 e2 = (m1 * 2 ^ (e1 - E) ?= m2 * 2 ^ (e2 - E)).
Proof.
  intros H1 H2. unfold compare_fin.
  set (e := Z.min e1 e2). assert (He : E <= e) by (unfold e; lia).
  assert (He1 : e <= e1) by (unfold e; lia).
  assert (He2 : e <= e2) by (unfold e; lia).
  replace (e1 - E) with ((e1 - e) + (e - E)) by lia.
  replace (e2 - E) with ((e2 - e) + (e - E)) by lia.
  rewrite !Z.pow_add_r, !Z.mul_assoc by lia.
  apply Zmult_compare_compat_r.
  apply Z.lt_gt, Z.pow_pos_nonneg; lia.
Qed.

Lemma le_fin x y m1 e1 m2 e2 E :
  classify x = IsFin m1 e1 -> classify y = IsFin m2 e2 ->
  E <= e1 -> E <= e2 ->
  (le x y = true <-> m1 * 2 ^ (e1 - E) <= m2 * 2 ^ (e2 - E)).
Proof.
  intros Hx Hy H1 H2. unfold le, compare. rewrite Hx, Hy.
  rewrite (compare_fin_scale m1 e1 m2 e2 E H1 H2).
  destruct (Z.compare_spec (m1 * 2 ^ (e1 - E)) (m2 * 2 ^ (e2 - E)));
    split; intros; try reflexivity; try discriminate; lia.
Qed.

Lemma le_trans x y z : le x y = true -> le y z = true -> le x z = true.
Proof.
  destruct (classify x) as [|sx|mx ex] eqn:Hx,
           (classify y) as [|sy|my ey] eqn:Hy,
           (classify z) as [|sz|mz ez] eqn:Hz;
    try (unfold le, compare; rewrite ?Hx, ?Hy, ?Hz;
         repeat match goal with s : bool |- _ => destruct s end;
         cbn; congruence).
  set (E := Z.min ex (Z.min ey ez)).
  rewrite (le_fin x y mx ex my ey E Hx Hy) by (unfold E; lia).
  rewrite (le_fin y z my ey mz ez E Hy Hz) by (unfold E; lia).
  rewrite (le_fin x z mx ex mz ez E Hx Hz) by (unfold E; lia).
  lia.
Qed.

Lemma le_refl x : is_nan x = false -> le x x = true.
Proof.
  intros H. unfold le.
  destruct x as [s|s| |s m e]; try discriminate; cbn;
    unfold compare_fin; rewrite ?Z.compare_refl; try reflexivity.
  destruct s; reflexivity.
Qed.

Lemma le_not_nan x y : le x y = true -> is_nan x = false /\ is_nan y = false.
Proof.
  unfold le, compare. destruct x, y; cbn; try discriminate; auto.
Qed.

Lemma le_of_Z a b : le (of_Z a) (of_Z b) = (a <=? b).
Proof.
  unfold le. rewrite Number_compare_of_Z. unfold Z.leb.
  destruct (a ?= b); reflexivity.
Qed.

Lemma le_infinity x : is_nan x = false ->
  le NegInfinity x = true /\ le x Infinity = true.
Proof.
  destruct x as [s|s| |s m e]; try discriminate; intros _;
    try destruct s; split; reflexivity.
Qed.

End OrderFacts.

(** X16.  [isNumberBetween(min, max)] has no effect and accepts exactly
    the numbers [n] with [min <= n <= max], both ends included: never
    NaN, nothing at all when a bound is NaN or when [min > max], every
    number but NaN between the two infinities; a wider range accepts
    whatever a narrower one does. *)
Theorem isNumberBetween_spec :
  forall World (min max : Number.t) (x : Value) (st : Store World),
    world (snd (call (isNumberBetween min max) x st)) = world st /\
    (fst (call (isNumberBetween min max) x st) = Return true <->
     exists n, x = VNumber n /\
               Number.le min n = true /\ Number.le n max = true) /\
    (fst (call (isNumberBetween min max) x st) = Return true ->
     is_NaN x = false /\
     Number.is_nan min = false /\ Number.is_nan max = false /\
     Number_gt min max = false) /\
    (Number.le min max = true ->
     fst (call (isNumberBetween min max) (VNumber min) st) = Return true /\
     fst (call (isNumberBetween min max) (VNumber max) st) = Return true) /\
    (forall min' max',
       Number.le min' min = true ->
       Number.le max max' = true ->
       fst (call (isNumberBetween min max) x st) = Return true ->
       fst (call (isNumberBetween min' max') x st) = Return true) /\
    (forall n,
       fst (call (isNumberBetween Number.NegInfinity Number.Infinity)
              (VNumber n) st) = Return (negb (Number.is_nan n))) /\
    (forall a b z,
       fst (call (isNumberBetween (Number.of_Z a) (Number.of_Z b))
              (VNumber (Number.of_Z z)) st) =
       Return ((a <=? z) && (z <=? b))).
Proof.
  intros World min max x st.
  assert (Hiff : forall lo hi y,
             fst (call (isNumberBetween (World := World) lo hi) y st) =
               Return true <->
             exists n, y = VNumber n /\
                       Number.le lo n = true /\ Number.le n hi = true).
  { intros lo hi y. cbn. split.
    - destruct y as [| | |n| | | |r k props]; try discriminate;
        [|now destruct k].
      cbn. unfold Number.ge. intros [= H].
      apply andb_true_iff in H. destruct H. eauto.
    - intros (n & -> & H1 & H2). cbn. unfold Number.ge. now rewrite H1, H2. }
  split; [reflexivity|]. split; [apply Hiff|].
  split; [|split; [|split; [|split]]].
  - rewrite Hiff. intros (n & -> & H1 & H2).
    destruct (OrderFacts.le_not_nan _ _ H1) as [Hmin Hn].
    destruct (OrderFacts.le_not_nan _ _ H2) as [_ Hmax].
    repeat split; trivial.
    assert (Hle := OrderFacts.le_trans _ _ _ H1 H2).
    unfold Number_gt. unfold Number.le in Hle.
    destruct (Number.compare min max) as [[ | | ]|]; try reflexivity;
      discriminate.
  - intros H. destruct (OrderFacts.le_not_nan _ _ H) as [Hmin Hmax].
    split; apply Hiff; eexists; repeat split; trivial;
      now apply OrderFacts.le_refl.
  - intros min' max' H1 H2. rewrite !Hiff. intros (n & -> & H3 & H4).
    exists n. repeat split;
      eapply OrderFacts.le_trans; eauto.
  - intros n. cbn. unfold Number.ge.
    destruct n as [s|s| |s m e]; try destruct s; reflexivity.
  - intros a b z. cbn. unfold Number.ge.
    now rewrite !OrderFacts.le_of_Z.
Qed.

(** X17.  The numeric inspectors nest: whatever [isUInt8] accepts
    [isUInt32] accepts, whatever [isUInt32] accepts [isInt] accepts, and
    whatever [isInt] accepts [isNumber] accepts; and [isUInt8] is the
    intersection of [isInt] with the range from 0 to 255. *)
Theorem numeric_inspectors_nest :
  forall World (conv : Value -> Number.t) (x : Value) (st : Store World),
    (isUInt8 x = true -> fst (call (isUInt32 conv) x st) = Return true) /\
    (fst (call (isUInt32 conv) x st) = Return true -> isInt x = true) /\
    (isInt x = true -> isNumber x = true) /\
    call (isAllOf [native isInt;
                   isNumberBetween (Number.of_Z 0) (Number.of_Z 255)]) x st =
    (Return (isUInt8 x), st).
Proof.
  intros World conv x st. split; [|split; [|split]].
  - intros H. apply isUInt8_spec in H. destruct H as (n & z & -> & Hz & Hr).
    apply isUInt32_spec. exists n, z. repeat split; trivial; lia.
  - intros H. apply isUInt32_spec in H. destruct H as (n & z & -> & Hz & _).
    apply NumberFacts.isInteger_represents. eauto.
  - destruct x; try discriminate. reflexivity.
  - destruct x as [| | |n| | | |r k props]; try reflexivity.
    unfold isUInt8. cbn. unfold bind, ret. cbn.
    destruct (Number.isInteger n); cbn; [|reflexivity].
    now destruct (Number.ge n _ && Number.le n _).
Qed.

(** ** Refinement *)

Lemma Array_every_Fn {World} (ps : list (Value -> M World bool)) x st :
  Array_every (fun isT => call isT x) (map Fn ps) st =
  Array_every (fun cond => cond x) ps st.
Proof.
  revert st. induction ps as [|c ps IH]; intros st; cbn; [reflexivity|].
  unfold bind. destruct (c x st) as [[[|]|e] st1]; try reflexivity. apply IH.
Qed.

(** X18.  [isRefined(isT, p_1, ..., p_n)] is the intersection of [isT]
    with its predicates, in that order: it behaves as
    [isAllOf(isT, p_1, ..., p_n)].  Without predicates it is [isT];
    refining a refinement is refining once with both lists of
    predicates; and when [isT] returns false or throws, no predicate is
    run. *)
Theorem isRefined_spec :
  forall World (isT : Inspector World)
         (ps qs : list (Value -> M World bool)) (x : Value)
         (st : Store World),
    call (isRefined isT ps) x st = call (isAllOf (isT :: map Fn ps)) x st /\
    call (isRefined isT []) x st = call isT x st /\
    call (isRefined (isRefined isT ps) qs) x st =
      call (isRefined isT (ps ++ qs)) x st /\
    (forall st1,
       call isT x st = (Return false, st1) ->
       call (isRefined isT ps) x st = (Return false, st1)) /\
    (forall e st1,
       call isT x st = (Throw e, st1) ->
       call (isRefined isT ps) x st = (Throw e, st1)).
Proof.
  intros World isT ps qs x st. split; [|split; [|split; [|split]]].
  - cbn. unfold bind. destruct (call isT x st) as [[[|]|e] st1];
      try reflexivity.
    symmetry. apply Array_every_Fn.
  - cbn. unfold bind. destruct (call isT x st) as [[[|]|e] st1]; reflexivity.
  - cbn. unfold bind at 1 2 3. destruct (call isT x st) as [[[|]|e] st1];
      try reflexivity.
    rewrite Array_every_app. reflexivity.
  - intros st1 H. cbn. unfold bind. now rewrite H.
  - intros e st1 H. cbn. unfold bind. now rewrite H.
Qed.

(** ** Purity is kept *)

Section Purity.

Context {World : Type}.

Lemma predicate_isArrayOf (isT : Inspector World) :
  predicate isT -> predicate (isArrayOf isT).
Proof.
  intros [p Hp].
  exists (fun x => match x with
                   | VObject _ (KArray elems) _ =>
                       negb (is_isNever isT) && forallb p elems
                   | _ => false
                   end).
  intros x. destruct x as [| | | | | | |r k props]; try apply returns_ret.
  destruct k; try apply returns_ret.
  now apply (isIterableOf_elements_decides isT p _ elems).
Qed.

Lemma predicate_isSetOf (isT : Inspector World) :
  predicate isT -> predicate (isSetOf isT).
Proof.
  intros [p Hp].
  exists (fun x => match x with
                   | VObject _ (KSet elems) _ =>
                       negb (is_isNever isT) && forallb p elems
                   | _ => false
                   end).
  intros x. destruct x as [| | | | | | |r k props]; try apply returns_ret.
  destruct k; try apply returns_ret.
  now apply (isIterableOf_elements_decides isT p _ elems).
Qed.

Lemma predicate_isMapOf (isK isV : Inspector World) :
  predicate isK -> predicate isV -> predicate (isMapOf isK isV).
Proof.
  intros [pK HK] [pV HV].
  exists (fun x => match x with
                   | VObject _ (KMap entries) _ =>
                       (negb (is_isNever isK) &&
                        forallb pK (map fst entries)) &&
                       (negb (is_isNever isV) &&
                        forallb pV (map snd entries))
                   | _ => false
                   end).
  intros x. destruct x as [| | | | | | |r k props]; try apply returns_ret.
  destruct k; try apply returns_ret.
  now apply isMapOf_returns.
Qed.

Lemma predicate_isRecordOf (isK isV : Inspector World) :
  predicate isK -> predicate isV -> predicate (isRecordOf isK isV).
Proof.
  intros [pK HK] [pV HV].
  exists (fun x => match x with
                   | VObject _ KPlain _ =>
                       forallb (fun key => pK (VString key) &&
                                           pV (get_prop x key))
                         (for_in_keys x)
                   | _ => false
                   end).
  intros x. destruct x as [| | | | | | |r k props]; try apply returns_ret.
  destruct k; try apply returns_ret.
  intros st. now apply isRecordOf_decides.
Qed.

Lemma predicate_isObjectOf chain (type : Shape World) p :
  shape_decides type p -> predicate (isObjectOf chain type).
Proof.
  intros Hp.
  exists (fun x => isObject x &&
                   forallb (fun entry => p (fst entry)
                                           (Get chain x (fst entry))) type).
  intros x. cbn [call isObjectOf].
  destruct (isObject x); cbn [negb andb]; [|apply returns_ret].
  now apply object_loop_decides.
Qed.

Lemma predicate_lists (l : list (Inspector World)) :
  Forall predicate l ->
  predicate (isAnyOf l) /\ predicate (isAllOf l) /\ predicate (isTupleOf l).
Proof.
  intros H. destruct (predicates_decide l H) as [ps Hps]. repeat split.
  - exists (fun x => existsb (fun p => p x) ps). intros x.
    now apply Array_some_decides.
  - exists (fun x => forallb (fun p => p x) ps). intros x.
    now apply Array_every_decides.
  - exact (ex_intro _ _ (isTupleOf_decides l ps Hps)).
Qed.

End Purity.

(** X19.  The combinators keep inspectors pure: built from inspectors
    that are total, effect-free predicates, [isNot], [isOptional],
    [isNullable], [isAnyOf], [isAllOf], [isTupleOf], [isObjectOf],
    [isArrayOf], [isSetOf], [isMapOf], [isRecordOf] and [is] with a
    constant supplier are such predicates again, as are [isExact(v)] and
    [isNumberBetween(min, max)].  [isPartialOf] is not in the list: on a
    key that names a member its shape inherits it may throw. *)
Theorem combinators_keep_predicates :
  forall World : Type,
    (forall isT : Inspector World,
       predicate isT ->
       predicate (isNot isT) /\ predicate (isOptional isT) /\
       predicate (isNullable isT) /\ predicate (isArrayOf isT) /\
       predicate (isSetOf isT) /\ predicate (is' (ret isT))) /\
    (forall inspectors : list (Inspector World),
       Forall predicate inspectors ->
       predicate (isAnyOf inspectors) /\ predicate (isAllOf inspectors) /\
       predicate (isTupleOf inspectors)) /\
    (forall chain (type : Shape World) p,
       shape_decides type p -> predicate (isObjectOf chain type)) /\
    (forall isK isV : Inspector World,
       predicate isK -> predicate isV ->
       predicate (isMapOf isK isV) /\ predicate (isRecordOf isK isV)) /\
    (forall v min max,
       predicate (World := World) (isExact v) /\
       predicate (World := World) (isNumberBetween min max)).
Proof.
  intros World. split; [|split; [|split; [|split]]].
  - intros isT H.
    assert (Hn : predicate (native (World := World) isUndefined))
      by (eexists; apply decides_native).
    assert (Hl : predicate (native (World := World) isNull))
      by (eexists; apply decides_native).
    repeat split.
    + destruct H as [p Hp]. exists (fun v => negb (p v)). intros v. cbn.
      eapply returns_bind; [apply Hp | apply returns_ret].
    + apply (predicate_lists [native isUndefined; isT]).
      now repeat constructor.
    + apply (predicate_lists [native isNull; isT]). now repeat constructor.
    + now apply predicate_isArrayOf.
    + now apply predicate_isSetOf.
    + destruct H as [p Hp]. exists p. intros v. cbn.
      eapply returns_bind; [apply returns_ret | apply Hp].
  - apply predicate_lists.
  - apply predicate_isObjectOf.
  - intros isK isV HK HV. split;
      [now apply predicate_isMapOf | now apply predicate_isRecordOf].
  - intros v min max. split; eexists; intros x; apply returns_ret.
Qed.

Lemma combinators_keep_predicates_witness :
  predicate (World := nat) (isObjectOf Samples.host Samples.person_shape) /\
  predicate (World := nat)
    (isTupleOf [native isString; isOptional (native isNumber)]).
Proof.
  split.
  - exact (proj1 (proj2 (proj2 (combinators_keep_predicates nat)))
             Samples.host Samples.person_shape Samples.person_pred
             person_shape_decides).
  - apply (proj1 (proj2 (combinators_keep_predicates nat))).
    constructor; [eexists; apply decides_native|].
    constructor; [|constructor].
    refine (proj1 (proj2 (proj1 (combinators_keep_predicates nat)
                            (native isNumber) _))).
    exists isNumber. apply decides_native.
Defined.

(** ** Primitives and objects *)

(** X20.  [isPrimitive] and [isObject] overlap: a boxed String object
    passes both, and nothing else does.  The values that pass neither
    are the bigints, the symbols and the functions. *)
Theorem isPrimitive_isObject_overlap :
  forall x : Value,
    (isPrimitive x && isObject x = true <->
     exists r s props, x = VObject r (KBoxedString s) props) /\
    (isPrimitive x || isObject x = false <->
     (exists z, x = VBigInt z) \/ (exists id, x = VSymbol id) \/
     (exists r props, x = VObject r KFunction props)).
Proof.
  intros x. split; split.
  - destruct x as [| |b|n|z|s|id|r k props]; try discriminate.
    + destruct b; discriminate.
    + destruct k; try discriminate. eauto.
  - intros (r & s & props & ->). reflexivity.
  - destruct x as [| |b|n|z|s|id|r k props]; try discriminate; eauto.
    + destruct b; discriminate.
    + destruct k; try discriminate. eauto 6.
  - intros [[z ->]|[[id ->]|(r & props & ->)]]; reflexivity.
Qed.

(** ** Strings as iterables *)

Lemma forallb_chars p s :
  (forall c, p (VString c) = true) -> forallb p (chars s) = true.
Proof. intros H. induction s; cbn; [reflexivity|]. now rewrite H. Qed.

(** X21.  A string is an iterable of one-character strings.  With a
    predicate, [isIterableOf(isT)] on a string is the conjunction over
    its characters: it accepts every string when [isT] accepts strings,
    and only the empty string when [isT] accepts no string; the empty
    string passes for every inspector but [isNever]. *)
Theorem isIterableOf_string :
  forall World (isT : Inspector World) (p : Value -> bool) (s : string)
         (st : Store World),
    decides isT p ->
    fst (call (isIterableOf isT) (VString s) st) =
      Return (negb (is_isNever isT) && forallb p (chars s)) /\
    ((forall c, p (VString c) = true) ->
     fst (call (isIterableOf isT) (VString s) st) =
       Return (negb (is_isNever isT))) /\
    ((forall c, p (VString c) = false) ->
     fst (call (isIterableOf isT) (VString s) st) =
       Return (negb (is_isNever isT) && String.eqb s "")).
Proof.
  intros World isT p s st Hp.
  destruct (isIterableOf_elements_decides isT p (VString s) (chars s)
              eq_refl (fun _ => eq_refl) Hp st) as [H _].
  split; [exact H|split]; intros Hc; rewrite H; f_equal; f_equal.
  - rewrite forallb_chars by exact Hc. apply andb_true_r.
  - destruct s; [reflexivity|]. cbn. now rewrite Hc.
Qed.

Lemma isIterableOf_string_witness :
  fst (call (isIterableOf (native isString)) (Samples.str "abc")
         Samples.st0) = Return true /\
  fst (call (isIterableOf (native isNumber)) (Samples.str "")
         Samples.st0) = Return true.
Proof.
  split.
  - refine (proj1 (proj2 (isIterableOf_string nat (native isString) isString
                            "abc" Samples.st0 (decides_native _))) _).
    reflexivity.
  - refine (proj2 (proj2 (isIterableOf_string nat (native isNumber) isNumber
                            "" Samples.st0 (decides_native _))) _).
    reflexivity.
Defined.
